(** * SafeSign: validation schemas and the login attempt guard

    A shallow embedding of the client logic of the SafeSign demo
    application:

    - the validation module ([@/lib/validations], the second half of
      [src/hooks/useAuth.tsx] in this tree): the Zod schemas
      [passwordSchema], [usernameSchema], [emailSchema], [signupSchema],
      [loginSchema];
    - [src/pages/Signup.tsx]: the password strength meter;
    - [src/hooks/useAuth.tsx]: [signUp], [signIn], [signOut];
    - [src/pages/Login.tsx]: the lockout state of the login page, its two
      effects (rehydration on mount, countdown tick), [onSubmit] and the
      warnings it renders;
    - [src/components/Navbar.tsx]: [handleSignOut];
    - the migration under [supabase/migrations]: the check constraints
      of the tables [profiles] and [security_logs].

    Zod and the platform client are dependencies: of Zod, the string
    checks the schemas use are embedded ([Zod]); of the client, only the
    way each call completes, which is an input ([Platform]).

    JavaScript strings are sequences of UTF-16 code units, so a string
    is a [list N] here; [.length] is [length].  Messages, storage keys
    and event names, which the source only ever writes as ASCII literals,
    are Rocq strings. *)

From Stdlib Require Import ZArith NArith Lia Bool List String Ascii DecimalString.
From Stdlib Require DecimalPos.
From stdpp Require Import base option list gmap strings.

Local Open Scope string_scope.
Local Open Scope list_scope.
Local Open Scope N_scope.

(** ** JavaScript strings *)

Abbreviation jsstring := (list N).

(** The code units of an ASCII literal. *)
Definition js (s : string) : jsstring :=
  map N_of_ascii (list_ascii_of_string s).
Arguments js : simpl never.

Module Chars.

Definition inRange (lo hi c : N) : bool := (lo <=? c) && (c <=? hi).

(** [A-Z], [a-z], [0-9] as the character classes of the source's
    regular expressions. *)
Definition isUpper (c : N) : bool := inRange 65 90 c.
Definition isLower (c : N) : bool := inRange 97 122 c.
Definition isDigit (c : N) : bool := inRange 48 57 c.
Definition isLetter (c : N) : bool := isUpper c || isLower c.
Definition isAscii (c : N) : bool := c <? 128.
Definition isAlnum (c : N) : bool := isLetter c || isDigit c.

Definition underscore : N := 95.
Definition dot : N := 46.
Definition at_sign : N := 64.
Definition hyphen : N := 45.
Definition plus : N := 43.
Definition apostrophe : N := 39.

(** White space and line terminators removed by
    [String.prototype.trim]. *)
Definition isTrimmable (c : N) : bool :=
  inRange 9 13 c || (c =? 32) || (c =? 160) || (c =? 5760)
  || inRange 8192 8202 c || (c =? 8232) || (c =? 8233) || (c =? 8239)
  || (c =? 8287) || (c =? 12288) || (c =? 65279).

(** Lower-casing of one code unit, for the ASCII range.  The only
    caller is the last step of [emailSchema], whose value is kept only
    when the e-mail pattern matched, and that pattern admits ASCII
    only (lemma [emailRegex_ascii] below). *)
Definition lowerUnit (c : N) : N := if isUpper c then c + 32 else c.

End Chars.

Import Chars.

Fixpoint dropWhile {A} (p : A -> bool) (l : list A) : list A :=
  match l with
  | [] => []
  | x :: r => if p x then dropWhile p r else l
  end.

(** [s.trim()] *)
Definition trim (s : jsstring) : jsstring :=
  rev (dropWhile isTrimmable (rev (dropWhile isTrimmable s))).

(** [s.toLowerCase()] *)
Definition toLowerCase (s : jsstring) : jsstring := map lowerUnit s.

(** [s.split(sep)] for a one-unit separator: never empty. *)
Fixpoint splitOn (sep : N) (s : jsstring) : list jsstring :=
  match s with
  | [] => [[]]
  | c :: r =>
      if c =? sep then [] :: splitOn sep r
      else match splitOn sep r with
           | [] => [[c]]
           | p :: ps => (c :: p) :: ps
           end
  end.

(** [parts.join(sep)] for a one-unit separator *)
Fixpoint joinWith (sep : N) (parts : list jsstring) : jsstring :=
  match parts with
  | [] => []
  | [p] => p
  | p :: ps => p ++ sep :: joinWith sep ps
  end.

(** Does [s] contain two consecutive dots? *)
Fixpoint hasDoubleDot (s : jsstring) : bool :=
  match s with
  | a :: (b :: _) as r => ((a =? dot) && (b =? dot)) || hasDoubleDot r
  | _ => false
  end.

(** ** Zod string schemas

    [z.string()] followed by a chain of checks.  Zod (3.x) keeps the
    checks in declaration order and runs them one after the other on the
    current value: a failing [min], [max], [regex] or [email] records an
    issue carrying the check's message and the loop goes on, while [trim]
    and [toLowerCase] replace the current value.  The parse succeeds,
    with the final value, when no issue was recorded. *)

Module Zod.

Record Issue := { path : list string; message : string }.

Inductive SafeParse (A : Type) : Type :=
| Success (data : A)
| Failure (issues : list Issue).
Arguments Success {A} data.
Arguments Failure {A} issues.

Definition issuesOf {A} (r : SafeParse A) : list Issue :=
  match r with Success _ => [] | Failure iss => iss end.

Definition isSuccess {A} (r : SafeParse A) : bool :=
  match r with Success _ => true | Failure _ => false end.

Inductive StringCheck :=
| Min (value : nat) (msg : string)
| Max (value : nat) (msg : string)
| Regex (test : jsstring -> bool) (msg : string)
| Email (msg : string)
| Trim
| ToLowerCase.

(** Zod's [emailRegex] (3.23 and later), case-insensitive and anchored
    at both ends.  Two look-aheads: the string does not start with a
    dot and has no two consecutive dots.  Then a local part, any number
    of units of the class [A-Z0-9_'+-.] and one last unit of the class
    [A-Z0-9_+-]; an at-sign; one or more labels, each of the form
    [A-Z0-9] followed by any number of [A-Z0-9-] and a dot; and at
    the end two or more letters.  (The second look-ahead scans up to the
    first line terminator only, but a string that holds one fails the
    rest of the pattern, so the test below may look at all of it.) *)
Definition isLocalUnit (c : N) : bool :=
  isAlnum c || (c =? underscore) || (c =? apostrophe) || (c =? plus)
  || (c =? hyphen) || (c =? dot).

Definition isLocalLast (c : N) : bool :=
  isAlnum c || (c =? underscore) || (c =? plus) || (c =? hyphen).

Definition localPart (l : jsstring) : bool :=
  forallb isLocalUnit l
  && match rev l with c :: _ => isLocalLast c | [] => false end.

Definition domainLabel (l : jsstring) : bool :=
  match l with
  | [] => false
  | c :: r => isAlnum c && forallb (fun u => isAlnum u || (u =? hyphen)) r
  end.

Definition topLevel (l : jsstring) : bool :=
  (2 <=? length l)%nat && forallb isLetter l.

Definition domainPart (d : jsstring) : bool :=
  match rev (splitOn dot d) with
  | tld :: ((_ :: _) as labels) => topLevel tld && forallb domainLabel labels
  | _ => false
  end.

Definition emailRegex (s : jsstring) : bool :=
  negb (match s with c :: _ => c =? dot | [] => false end)
  && negb (hasDoubleDot s)
  && match splitOn at_sign s with
     | [l; d] => localPart l && domainPart d
     | _ => false
     end.

Definition issue (msg : string) : Issue := {| path := []; message := msg |}.

(** One check: the value it leaves and the issues it adds. *)
Definition runCheck (c : StringCheck) (data : jsstring) : jsstring * list Issue :=
  match c with
  | Min n msg => (data, if (length data <? n)%nat then [issue msg] else [])
  | Max n msg => (data, if (n <? length data)%nat then [issue msg] else [])
  | Regex test msg => (data, if test data then [] else [issue msg])
  | Email msg => (data, if emailRegex data then [] else [issue msg])
  | Trim => (trim data, [])
  | ToLowerCase => (toLowerCase data, [])
  end.

Fixpoint runChecks (checks : list StringCheck) (data : jsstring)
  : jsstring * list Issue :=
  match checks with
  | [] => (data, [])
  | c :: rest =>
      let '(data1, here) := runCheck c data in
      let '(out, later) := runChecks rest data1 in
      (out, here ++ later)
  end.

(** [schema.safeParse(input)] for a string schema *)
Definition safeParse (checks : list StringCheck) (input : jsstring)
  : SafeParse jsstring :=
  match runChecks checks input with
  | (out, []) => Success out
  | (_, iss) => Failure iss
  end.

(** Issues of a field of a [z.object], with the key put in front of
    the path. *)
Definition atKey {A} (key : string) (r : SafeParse A) : list Issue :=
  map (fun i => {| path := key :: path i; message := message i |}) (issuesOf r).

End Zod.

Import Zod.

(** ** The validation module *)

Module Validations.

(** [/[A-Z]/], [/[a-z]/], [/[0-9]/], [/[^A-Za-z0-9]/]: unanchored, one
    class each. *)
Definition re_upper (s : jsstring) : bool := existsb isUpper s.
Definition re_lower (s : jsstring) : bool := existsb isLower s.
Definition re_digit (s : jsstring) : bool := existsb isDigit s.
Definition re_special (s : jsstring) : bool :=
  existsb (fun c => negb (isAlnum c)) s.

(** [/^[a-zA-Z0-9_]+$/] *)
Definition re_username (s : jsstring) : bool :=
  match s with
  | [] => false
  | _ => forallb (fun c => isAlnum c || (c =? underscore)) s
  end.

Definition passwordSchema : list StringCheck :=
  [ Min 8 "Password must be at least 8 characters";
    Regex re_upper "Password must contain at least one uppercase letter";
    Regex re_lower "Password must contain at least one lowercase letter";
    Regex re_digit "Password must contain at least one number";
    Regex re_special "Password must contain at least one special character" ].

Definition usernameSchema : list StringCheck :=
  [ Min 3 "Username must be at least 3 characters";
    Max 30 "Username must not exceed 30 characters";
    Regex re_username "Username can only contain letters, numbers, and underscores";
    Trim ].

Definition emailSchema : list StringCheck :=
  [ Email "Invalid email address";
    Max 255 "Email must not exceed 255 characters";
    Trim;
    ToLowerCase ].

Record SignupFormData := {
  username : jsstring;
  signup_email : jsstring;
  signup_password : jsstring;
  confirmPassword : jsstring
}.

Record LoginFormData := {
  email : jsstring;
  password : jsstring
}.

(** [z.object({...}).refine(data => data.password === data.confirmPassword, ...)]:
    the fields are parsed in the order of the shape; the refinement
    runs on the parsed fields also when some of them recorded issues. *)
Definition signupSchema (input : SignupFormData) : SafeParse SignupFormData :=
  let u := safeParse usernameSchema (username input) in
  let e := safeParse emailSchema (signup_email input) in
  let p := safeParse passwordSchema (signup_password input) in
  let c := safeParse [] (confirmPassword input) in
  let mismatch :=
    if decide (signup_password input = confirmPassword input) then []
    else [ {| path := ["confirmPassword"]; message := "Passwords do not match" |} ] in
  match u, e, p, c, mismatch with
  | Success u1, Success e1, Success p1, Success c1, [] =>
      Success {| username := u1; signup_email := e1;
                 signup_password := p1; confirmPassword := c1 |}
  | _, _, _, _, _ =>
      Failure (atKey "username" u ++ atKey "email" e ++ atKey "password" p
               ++ atKey "confirmPassword" c ++ mismatch)
  end.

Definition loginSchema (input : LoginFormData) : SafeParse LoginFormData :=
  let e := safeParse emailSchema (email input) in
  let p := safeParse [Min 1 "Password is required"] (password input) in
  match e, p with
  | Success e1, Success p1 => Success {| email := e1; password := p1 |}
  | _, _ => Failure (atKey "email" e ++ atKey "password" p)
  end.

End Validations.

(** ** [src/pages/Signup.tsx]: the strength meter *)

Module Signup.

Import Validations.
Local Open Scope Z_scope.

(** The effect on [password]: [None] is [undefined] (the field has not
    been written yet); [!password] also holds for the empty string. *)
Definition passwordStrength (password : option jsstring) : Z :=
  match password with
  | None | Some [] => 0
  | Some pw =>
      (if (8 <=? length pw)%nat then 20 else 0)
      + (if (12 <=? length pw)%nat then 10 else 0)
      + (if re_upper pw then 20 else 0)
      + (if re_lower pw then 20 else 0)
      + (if re_digit pw then 15 else 0)
      + (if re_special pw then 15 else 0)
  end.

(** The label next to the meter. *)
Definition strengthLabel (strength : Z) : string :=
  if strength <? 40 then "Weak"
  else if strength <? 70 then "Medium"
  else "Strong".

Definition getStrengthColor (strength : Z) : string :=
  if strength <? 40 then "bg-destructive"
  else if strength <? 70 then "bg-warning"
  else "bg-success".

End Signup.

(** ** JavaScript numbers

    The numbers of the login page are timestamps in milliseconds and
    small counters: integers, or [NaN] when [parseInt] or [Date] could
    not read their input.  Integers are exact (all values are far below
    2^53). *)

Module Number.

Inductive number := NaN | Int (z : Z).

Local Open Scope Z_scope.

(** [a < b] and [a >= b]: every comparison with [NaN] is false. *)
Definition lt (a b : number) : bool :=
  match a, b with Int x, Int y => x <? y | _, _ => false end.
Definition ge (a b : number) : bool :=
  match a, b with Int x, Int y => y <=? x | _, _ => false end.

(** Truthiness: [0] and [NaN] are falsy. *)
Definition truthy (a : number) : bool :=
  match a with Int z => negb (z =? 0) | NaN => false end.

Definition sub (a b : number) : number :=
  match a, b with Int x, Int y => Int (x - y) | _, _ => NaN end.

(** [Math.ceil(a / 1000 / 60)] *)
Definition ceilMinutes (a : number) : number :=
  match a with Int x => Int (- ((- x) / 60000)) | NaN => NaN end.

(** [a.toString()] and the rendering inside a template literal *)
Definition toString (a : number) : jsstring :=
  match a with
  | Int z => js (NilZero.string_of_int (Z.to_int z))
  | NaN => js "NaN"
  end.
Arguments toString : simpl never.

(** The value of a digit in a radix up to sixteen. *)
Definition digitValue (c : N) : option Z :=
  if isDigit c then Some (Z.of_N c - 48)
  else if inRange 97 102 c then Some (Z.of_N c - 87)
  else if inRange 65 70 c then Some (Z.of_N c - 55)
  else None.

(** The value of the longest prefix of digits, [None] when it is
    empty. *)
Fixpoint digitsPrefix (radix : Z) (s : jsstring) (acc : option Z) : option Z :=
  match s with
  | [] => acc
  | c :: r =>
      match digitValue c with
      | Some d =>
          if d <? radix
          then digitsPrefix radix r (Some (radix * default 0 acc + d))
          else acc
      | None => acc
      end
  end.

(** [parseInt(s)] without a radix: leading white space, a sign, a
    [0x] prefix for radix sixteen, then the digits; what follows them
    is ignored.  The result is the exact value of the digits, which is
    what JavaScript returns for the safe integers. *)
Definition parseInt (s : jsstring) : number :=
  let s1 := dropWhile isTrimmable s in
  let '(sign, s2) :=
    match s1 with
    | c :: r => if (c =? 45)%N then (-1, r)
                else if (c =? 43)%N then (1, r) else (1, s1)
    | [] => (1, s1)
    end in
  let '(radix, s3) :=
    match s2 with
    | a :: b :: r =>
        if ((a =? 48) && ((b =? 120) || (b =? 88)))%N then (16, r) else (10, s2)
    | _ => (10, s2)
    end in
  match digitsPrefix radix s3 None with
  | Some v => Int (sign * v)
  | None => NaN
  end.

End Number.

Import Number.

(** ** The platform client and the effects of the handlers *)

Module Platform.

(** A thrown or returned error object. *)
Record JsError := { errorMessage : jsstring }.

Record User := { id : jsstring }.

Inductive SecurityEventType :=
| signup_success | signup_failed | login_success | login_failed
| logout_success.

(** The remote calls of the two files. *)
Inductive Call :=
| auth_signUp (email password : jsstring)
| auth_signInWithPassword (email password : jsstring)
| auth_signOut
| profiles_insert (user_id username email : jsstring)
| profiles_update_last_login (user_id : jsstring)
| rpc_log_security_event (p_user_id : option jsstring)
    (p_event_type : SecurityEventType)
| rpc_check_rate_limit (p_email : jsstring)
    (p_max_attempts p_window_minutes : Z)
| rpc_record_login_attempt (p_email : jsstring) (p_success : bool).

(** What a handler does that can be seen from outside. *)
Inductive Event :=
| Remote (c : Call)
| ConsoleError (label : string) (e : JsError)
| Toast (title : string) (description : jsstring) (destructive : bool)
| Navigate (to : string).

#[global] Instance JsError_eq_dec : EqDecision JsError.
Proof. solve_decision. Defined.
#[global] Instance SecurityEventType_eq_dec : EqDecision SecurityEventType.
Proof. solve_decision. Defined.
#[global] Instance Call_eq_dec : EqDecision Call.
Proof. solve_decision. Defined.
#[global] Instance Event_eq_dec : EqDecision Event.
Proof. solve_decision. Defined.

Definition isRemote (e : Event) : bool :=
  match e with Remote _ => true | _ => false end.

Definition isConsoleError (e : Event) : bool :=
  match e with ConsoleError _ _ => true | _ => false end.

Definition isAuthentication (e : Event) : bool :=
  match e with Remote (auth_signInWithPassword _ _) => true | _ => false end.

(** How an awaited promise completes. *)
Inductive Completion (A : Type) : Type :=
| Normal (value : A)
| Throw (reason : JsError).
Arguments Normal {A} value.
Arguments Throw {A} reason.

(** The resolved object of the client, [{ data, error }]. *)
Record Result (A : Type) := { data : A; error : option JsError }.
Arguments data {A} r.
Arguments error {A} r.

(** The JSON answer of [check_rate_limit].  [lockout_until] is kept as
    the time value that [new Date(lockout_until).getTime()] gives:
    [NaN] for a missing or unreadable date. *)
Record RateLimitCheck := {
  allowed : bool;
  lockout_until : number;
  attempts_remaining : option Z;
  message : option jsstring
}.

(** The behaviour of the external platform: how each call completes. *)
Record Platform := {
  signUp_reply : jsstring -> jsstring -> Completion (Result (option User));
  signInWithPassword_reply :
    jsstring -> jsstring -> Completion (Result (option User));
  signOut_reply : Completion (Result unit);
  profiles_insert_reply :
    jsstring -> jsstring -> jsstring -> Completion (Result unit);
  profiles_update_reply : jsstring -> Completion (Result unit);
  log_security_event_reply :
    option jsstring -> SecurityEventType -> Completion (Result unit);
  check_rate_limit_reply :
    jsstring -> Completion (Result (option RateLimitCheck));
  record_login_attempt_reply :
    jsstring -> bool -> Completion (Result unit)
}.

(** The same platform with other answers to [log_security_event]. *)
Definition withAuditReplies (P : Platform)
    (f : option jsstring -> SecurityEventType -> Completion (Result unit))
  : Platform :=
  {| signUp_reply := signUp_reply P;
     signInWithPassword_reply := signInWithPassword_reply P;
     signOut_reply := signOut_reply P;
     profiles_insert_reply := profiles_insert_reply P;
     profiles_update_reply := profiles_update_reply P;
     log_security_event_reply := f;
     check_rate_limit_reply := check_rate_limit_reply P;
     record_login_attempt_reply := record_login_attempt_reply P |}.

(** *** The handler monad: state, a trace of events, exceptions *)

Definition M (S A : Type) : Type := S -> Completion A * S * list Event.

#[global] Instance M_ret {S} : MRet (M S) :=
  fun A a s => (Normal a, s, []).

#[global] Instance M_bind {S} : MBind (M S) :=
  fun A B f m s =>
    match m s with
    | (Normal a, s1, t1) => let '(r, s2, t2) := f a s1 in (r, s2, t1 ++ t2)
    | (Throw e, s1, t1) => (Throw e, s1, t1)
    end.

Definition throw {S A} (e : JsError) : M S A := fun s => (Throw e, s, []).
Definition emit {S} (ev : Event) : M S unit := fun s => (Normal tt, s, [ev]).
Definition gets {S A} (f : S -> A) : M S A := fun s => (Normal (f s), s, []).
Definition modify {S} (f : S -> S) : M S unit := fun s => (Normal tt, f s, []).

(** [await] of a remote call: the call is recorded, and the promise
    completes as the platform decides. *)
Definition await {S A} (c : Call) (reply : Completion A) : M S A :=
  fun s => (reply, s, [Remote c]).

(** [try { body } catch (e) { handler }] *)
Definition tryCatch {S A} (body : M S A) (handler : JsError -> M S A) : M S A :=
  fun s =>
    match body s with
    | (Throw e, s1, t1) => let '(r, s2, t2) := handler e s1 in (r, s2, t1 ++ t2)
    | done => done
    end.

(** [try { body } finally { cleanup }] *)
Definition tryFinally {S A} (body : M S A) (cleanup : M S unit) : M S A :=
  fun s =>
    let '(r, s1, t1) := body s in
    match cleanup s1 with
    | (Normal _, s2, t2) => (r, s2, t1 ++ t2)
    | (Throw e, s2, t2) => (Throw e, s2, t1 ++ t2)
    end.

Definition trace {S A} (out : Completion A * S * list Event) : list Event := out.2.
Definition finalState {S A} (out : Completion A * S * list Event) : S := out.1.2.
Definition completion {S A} (out : Completion A * S * list Event)
  : Completion A := out.1.1.

End Platform.

Import Platform.

(** ** [src/hooks/useAuth.tsx] *)

Module UseAuth.

Section Handlers.

Context {S : Type}.
Variable P : Platform.

(** [signUp(email, password, username)]; the result is the [error]
    field of the returned object. *)
Definition signUp (email password username : jsstring)
  : M S (option JsError) :=
  tryCatch
    (r ← await (auth_signUp email password) (signUp_reply P email password);
     match error r with
     | Some authError => throw authError
     | None =>
         match data r with
         | Some user =>
             ins ← await (profiles_insert (id user) username email)
                     (profiles_insert_reply P (id user) username email);
             match error ins with
             | Some profileError => throw profileError
             | None =>
                 await (rpc_log_security_event (Some (id user)) signup_success)
                   (log_security_event_reply P (Some (id user)) signup_success);;
                 emit (Toast "Account created successfully!"
                         (js "You can now log in with your credentials.") false)
             end
         | None => mret tt
         end;;
         mret None
     end)
    (fun error =>
       emit (ConsoleError "[Security] Signup error:" error);;
       await (rpc_log_security_event None signup_failed)
         (log_security_event_reply P None signup_failed);;
       mret (Some error)).

(** [signIn(email, password)] *)
Definition signIn (email password : jsstring) : M S (option JsError) :=
  tryCatch
    (r ← await (auth_signInWithPassword email password)
           (signInWithPassword_reply P email password);
     match error r with
     | Some e => throw e
     | None =>
         match data r with
         | Some user =>
             await (profiles_update_last_login (id user))
               (profiles_update_reply P (id user));;
             await (rpc_log_security_event (Some (id user)) login_success)
               (log_security_event_reply P (Some (id user)) login_success);;
             mret tt
         | None => mret tt
         end;;
         emit (Toast "Welcome back!"
                 (js "You have successfully logged in.") false);;
         mret None
     end)
    (fun error =>
       emit (ConsoleError "[Security] Login error:" error);;
       await (rpc_log_security_event None login_failed)
         (log_security_event_reply P None login_failed);;
       mret (Some error)).

(** [signOut()], with the [user] of the hook's state *)
Definition signOut (user : option User) : M S (option JsError) :=
  tryCatch
    (let currentUserId := id <$> user in
     r ← await auth_signOut (signOut_reply P);
     match error r with
     | Some e => throw e
     | None =>
         match currentUserId with
         | Some uid =>
             await (rpc_log_security_event (Some uid) logout_success)
               (log_security_event_reply P (Some uid) logout_success);;
             mret tt
         | None => mret tt
         end;;
         emit (Toast "Signed out successfully"
                 (js "You have been logged out.") false);;
         mret None
     end)
    (fun error =>
       emit (ConsoleError "[Security] Logout error:" error);;
       mret (Some error)).

End Handlers.

End UseAuth.

(** ** [src/pages/Login.tsx] *)

Module Login.

Import Validations.
Local Open Scope Z_scope.

Definition MAX_LOGIN_ATTEMPTS : Z := 5.
Definition LOCKOUT_DURATION : Z := 15 * 60 * 1000.

(** The state of the page ([useState]) and the browser's
    [localStorage], which outlives the page. *)
Record State := {
  isLoading : bool;
  loginAttempts : number;
  isLocked : bool;
  lockoutEndTime : option number;
  localStorage : gmap string jsstring
}.

Definition setIsLoading (b : bool) (st : State) : State :=
  {| isLoading := b; loginAttempts := loginAttempts st;
     isLocked := isLocked st; lockoutEndTime := lockoutEndTime st;
     localStorage := localStorage st |}.

Definition setLoginAttempts (n : number) (st : State) : State :=
  {| isLoading := isLoading st; loginAttempts := n;
     isLocked := isLocked st; lockoutEndTime := lockoutEndTime st;
     localStorage := localStorage st |}.

Definition setIsLocked (b : bool) (st : State) : State :=
  {| isLoading := isLoading st; loginAttempts := loginAttempts st;
     isLocked := b; lockoutEndTime := lockoutEndTime st;
     localStorage := localStorage st |}.

Definition setLockoutEndTime (t : option number) (st : State) : State :=
  {| isLoading := isLoading st; loginAttempts := loginAttempts st;
     isLocked := isLocked st; lockoutEndTime := t;
     localStorage := localStorage st |}.

Definition withStorage (f : gmap string jsstring -> gmap string jsstring)
    (st : State) : State :=
  {| isLoading := isLoading st; loginAttempts := loginAttempts st;
     isLocked := isLocked st; lockoutEndTime := lockoutEndTime st;
     localStorage := f (localStorage st) |}.

(** [localStorage.setItem], [localStorage.removeItem],
    [localStorage.getItem] *)
Definition setItem (key : string) (value : jsstring) : State -> State :=
  withStorage (insert key value).
Definition removeItem (key : string) : State -> State :=
  withStorage (delete key).
Definition getItem (key : string) (st : State) : option jsstring :=
  localStorage st !! key.

(** The page as it is first rendered: the defaults of [useState] over
    whatever the browser has stored. *)
Definition initial (storage : gmap string jsstring) : State :=
  {| isLoading := false; loginAttempts := Int 0; isLocked := false;
     lockoutEndTime := None; localStorage := storage |}.

(** The two states of the guard. *)
Inductive Guard := OPEN | LOCKED.
Definition guard (st : State) : Guard := if isLocked st then LOCKED else OPEN.

(** A string is truthy when it is not empty. *)
Definition nonEmpty (s : jsstring) : bool :=
  match s with [] => false | _ => true end.

(** The effect that runs once on mount: check for an existing lockout.
    [now] is the value of [Date.now()]. *)
Definition checkExistingLockout (now : Z) (st : State) : State :=
  let st1 :=
    match getItem "loginLockoutEnd" st with
    | Some lockoutEnd =>
        if nonEmpty lockoutEnd then
          let endTime := parseInt lockoutEnd in
          if Number.lt (Int now) endTime
          then setLockoutEndTime (Some endTime) (setIsLocked true st)
          else removeItem "loginAttempts" (removeItem "loginLockoutEnd" st)
        else st
    | None => st
    end in
  match getItem "loginAttempts" st1 with
  | Some attempts =>
      if nonEmpty attempts then setLoginAttempts (parseInt attempts) st1
      else st1
  | None => st1
  end.

(** The countdown effect installs its one-second interval only when
    the page is locked and [lockoutEndTime] is truthy. *)
Definition countdownActive (st : State) : bool :=
  isLocked st
  && match lockoutEndTime st with Some t => truthy t | None => false end.

(** One firing of the interval, at time [now]. *)
Definition countdownTick (now : Z) (st : State) : State :=
  if countdownActive st then
    match lockoutEndTime st with
    | Some t =>
        if Number.ge (Int now) t then
          removeItem "loginAttempts"
            (removeItem "loginLockoutEnd"
               (setLoginAttempts (Int 0)
                  (setLockoutEndTime None (setIsLocked false st))))
        else st
    | None => st
    end
  else st.

(** The answer of the rate-limit check when it blocks the login:
    [rateLimitCheck && !rateLimitCheck.allowed]. *)
Definition blockedBy (rateLimitCheck : option RateLimitCheck)
  : option RateLimitCheck :=
  match rateLimitCheck with
  | Some chk => if allowed chk then None else Some chk
  | None => None
  end.

(** [rateLimitCheck?.attempts_remaining ?? MAX_LOGIN_ATTEMPTS] *)
Definition attemptsRemainingOf (rateLimitCheck : option RateLimitCheck) : Z :=
  match rateLimitCheck with
  | Some chk => default MAX_LOGIN_ATTEMPTS (attempts_remaining chk)
  | None => MAX_LOGIN_ATTEMPTS
  end.

Section Handlers.

Variable P : Platform.

(** The body of the [try] block of [onSubmit]. *)
Definition attemptLogin (data : LoginFormData) : M State unit :=
  rl ← await (rpc_check_rate_limit (email data) MAX_LOGIN_ATTEMPTS 15)
         (check_rate_limit_reply P (email data));
  let rateLimitCheck := Platform.data rl in
  match error rl with
  | Some rateLimitError =>
      emit (ConsoleError "Rate limit check error:" rateLimitError)
  | None => mret tt
  end;;
  match blockedBy rateLimitCheck with
  | Some chk =>
      let lockoutUntil := lockout_until chk in
      modify (setIsLocked true);;
      modify (setLockoutEndTime (Some lockoutUntil));;
      modify (setItem "loginLockoutEnd" (Number.toString lockoutUntil));;
      modify (setItem "loginAttempts"
                (Number.toString (Int MAX_LOGIN_ATTEMPTS)));;
      emit (Toast "Too many failed attempts"
              (match message chk with
               | Some (c :: m) => c :: m
               | _ => js "Your account has been temporarily locked."
               end) true);;
      modify (setIsLoading false)
  | None =>
      error ← UseAuth.signIn P (email data) (password data);
      await (rpc_record_login_attempt (email data)
               (match error with Some _ => false | None => true end))
        (record_login_attempt_reply P (email data)
           (match error with Some _ => false | None => true end));;
      match error with
      | Some _ =>
          let attemptsRemaining := attemptsRemainingOf rateLimitCheck in
          let newAttempts := MAX_LOGIN_ATTEMPTS - attemptsRemaining + 1 in
          modify (setLoginAttempts (Int newAttempts));;
          modify (setItem "loginAttempts" (Number.toString (Int newAttempts)));;
          emit (Toast "Login failed"
                  (js "Invalid credentials. "
                   ++ Number.toString (Int (Z.max 0 (attemptsRemaining - 1)))
                   ++ js " attempt(s) remaining.") true)
      | None =>
          modify (setLoginAttempts (Int 0));;
          modify (removeItem "loginAttempts");;
          modify (removeItem "loginLockoutEnd");;
          emit (Navigate "/dashboard")
      end
  end.

(** [onSubmit(data)]; [now] is the value of [Date.now()] in the
    locked branch. *)
Definition onSubmit (now : Z) (data : LoginFormData) : M State unit :=
  st ← gets (fun st => st);
  if isLocked st then
    let remainingTime :=
      ceilMinutes (Number.sub (default (Int 0) (lockoutEndTime st)) (Int now)) in
    emit (Toast "Account temporarily locked"
            (js "Too many failed attempts. Please try again in "
             ++ Number.toString remainingTime ++ js " minute(s).") true)
  else
    modify (setIsLoading true);;
    tryFinally
      (tryCatch (attemptLogin data)
         (fun _ =>
            emit (Toast "Error"
                    (js "An unexpected error occurred. Please try again.")
                    true)))
      (modify (setIsLoading false)).

(** [handleSubmit(onSubmit)] with the Zod resolver: [onSubmit] gets
    the parsed values, and is not called when the form has issues,
    which are returned for display. *)
Definition handleSubmit (now : Z) (form : LoginFormData)
  : M State (list Issue) :=
  match loginSchema form with
  | Success data => onSubmit now data;; mret []
  | Failure issues => mret issues
  end.

End Handlers.

(** *** The page as a state machine *)

Inductive Input :=
| PageLoad (now : Z)
| Tick (now : Z)
| Submit (P : Platform) (now : Z) (form : LoginFormData).

Definition step (st : State) (i : Input) : State :=
  match i with
  | PageLoad now => checkExistingLockout now (initial (localStorage st))
  | Tick now => countdownTick now st
  | Submit P now form => finalState (handleSubmit P now form st)
  end.

Definition run (inputs : list Input) (st : State) : State :=
  fold_left step inputs st.

(** The states a browser that starts with nothing stored can reach. *)
Definition reachable (st : State) : Prop :=
  exists inputs, st = run inputs (initial ∅).

End Login.

(** ** Platforms used in the examples *)

Module Scenario.

Import Validations.
Local Open Scope Z_scope.

Definition resolved {A} (a : A) : Completion (Result A) :=
  Normal {| data := a; error := None |}.
Definition failed {A} (a : A) (msg : string) : Completion (Result A) :=
  Normal {| data := a; error := Some {| errorMessage := js msg |} |}.
Definition rejected {A} (msg : string) : Completion A :=
  Throw {| errorMessage := js msg |}.

Definition alice : User := {| id := js "7f3c" |}.

(** A platform on which every call succeeds and the credentials are
    right; the rate-limit check reports [remaining] attempts. *)
Definition accepting (remaining : Z) : Platform :=
  {| signUp_reply := fun _ _ => resolved (Some alice);
     signInWithPassword_reply := fun _ _ => resolved (Some alice);
     signOut_reply := resolved tt;
     profiles_insert_reply := fun _ _ _ => resolved tt;
     profiles_update_reply := fun _ => resolved tt;
     log_security_event_reply := fun _ _ => resolved tt;
     check_rate_limit_reply := fun _ =>
       resolved (Some {| allowed := true; lockout_until := NaN;
                         attempts_remaining := Some remaining;
                         message := None |});
     record_login_attempt_reply := fun _ _ => resolved tt |}.

(** The same platform when the password is wrong: authentication
    answers with an error. *)
Definition rejecting (remaining : Z) : Platform :=
  {| signUp_reply := signUp_reply (accepting remaining);
     signInWithPassword_reply := fun _ _ =>
       failed None "Invalid login credentials";
     signOut_reply := signOut_reply (accepting remaining);
     profiles_insert_reply := profiles_insert_reply (accepting remaining);
     profiles_update_reply := profiles_update_reply (accepting remaining);
     log_security_event_reply :=
       log_security_event_reply (accepting remaining);
     check_rate_limit_reply :=
       check_rate_limit_reply (accepting remaining);
     record_login_attempt_reply :=
       record_login_attempt_reply (accepting remaining) |}.

Definition wrongPassword : Platform := rejecting 5.

(** A wrong password while the rate-limit procedure itself fails: the
    check resolves with an error and no data. *)
Definition checkUnavailable : Platform :=
  {| signUp_reply := signUp_reply wrongPassword;
     signInWithPassword_reply := signInWithPassword_reply wrongPassword;
     signOut_reply := signOut_reply wrongPassword;
     profiles_insert_reply := profiles_insert_reply wrongPassword;
     profiles_update_reply := profiles_update_reply wrongPassword;
     log_security_event_reply := log_security_event_reply wrongPassword;
     check_rate_limit_reply := fun _ => failed None "function not found";
     record_login_attempt_reply := record_login_attempt_reply wrongPassword |}.

(** The platform once the failures of the window have reached the
    maximum: the check denies the attempt until [until]. *)
Definition blocking (until : Z) : Platform :=
  {| signUp_reply := signUp_reply wrongPassword;
     signInWithPassword_reply := signInWithPassword_reply wrongPassword;
     signOut_reply := signOut_reply wrongPassword;
     profiles_insert_reply := profiles_insert_reply wrongPassword;
     profiles_update_reply := profiles_update_reply wrongPassword;
     log_security_event_reply := log_security_event_reply wrongPassword;
     check_rate_limit_reply := fun _ =>
       resolved (Some {| allowed := false; lockout_until := Int until;
                         attempts_remaining := Some 0;
                         message := Some (js "Too many failed login attempts.") |});
     record_login_attempt_reply := record_login_attempt_reply wrongPassword |}.

Definition form : LoginFormData :=
  {| email := js "user@example.com"; password := js "not-my-password" |}.

(** Four wrong passwords in a row on a fresh browser, the server
    counting down the attempts that remain. *)
Definition fourFailures : list Login.Input :=
  [ Login.PageLoad 0;
    Login.Submit (rejecting 5) 1000 form;
    Login.Submit (rejecting 4) 2000 form;
    Login.Submit (rejecting 3) 3000 form;
    Login.Submit (rejecting 2) 4000 form ].

(** And the fifth one, at time 5000. *)
Definition fiveFailures : list Login.Input :=
  fourFailures ++ [ Login.Submit (rejecting 1) 5000 form ].

End Scenario.

(** ** Statements about the guard *)

Module GuardSpec.

Import Login.
Local Open Scope Z_scope.

(** The state in which an expired lockout leaves the page. *)
Definition reopened (st : State) : Prop :=
  guard st = OPEN
  /\ lockoutEndTime st = None
  /\ loginAttempts st = Int 0
  /\ getItem "loginLockoutEnd" st = None
  /\ getItem "loginAttempts" st = None.

(** What it means for an input to observe the lockout end time [t]:
    a tick of the countdown of a locked page whose [lockoutEndTime] is
    [t], or a page load that reads [t] from the stored key
    [loginLockoutEnd]. *)
Definition observes (st : State) (i : Input) (now t : Z) : Prop :=
  (i = Tick now /\ isLocked st = true
   /\ lockoutEndTime st = Some (Int t) /\ t <> 0)
  \/ (i = PageLoad now
      /\ exists s, getItem "loginLockoutEnd" st = Some s
                   /\ s <> [] /\ parseInt s = Int t).

(** A submission that reaches the platform and fails there: the
    rate-limit check resolves with the answer [rateLimitCheck] (none
    when the procedure failed) and does not block, [signIn] returns an
    error, and the recording of the attempt resolves. *)
Record FailedAttempt (P : Platform) (data : Validations.LoginFormData)
    (rateLimitCheck : option RateLimitCheck) : Prop := {
  check_resolves :
    exists err, check_rate_limit_reply P (Validations.email data)
                = Normal {| Platform.data := rateLimitCheck; error := err |};
  check_allows : blockedBy rateLimitCheck = None;
  signIn_fails :
    exists e, completion (UseAuth.signIn P (Validations.email data)
                            (Validations.password data) tt)
              = Normal (Some e);
  attempt_recorded :
    exists r, record_login_attempt_reply P (Validations.email data) false
              = Normal r
}.

(** A submission that the server's rate-limit check denies: it resolves
    with the answer [chk], whose [allowed] is false. *)
Record BlockedAttempt (P : Platform) (data : Validations.LoginFormData)
    (chk : RateLimitCheck) : Prop := {
  denial_resolves :
    exists err, check_rate_limit_reply P (Validations.email data)
                = Normal {| Platform.data := Some chk; error := err |};
  denial : allowed chk = false
}.

(** The states in which [onSubmit] can leave the page. *)
Inductive SubmitOutcome (P : Platform) (data : Validations.LoginFormData)
    (st : State) : State -> Prop :=
| RejectedLocally :
    isLocked st = true -> SubmitOutcome P data st st
| UnexpectedError :
    isLocked st = false ->
    SubmitOutcome P data st (setIsLoading false (setIsLoading true st))
| Blocked (chk : RateLimitCheck) :
    isLocked st = false ->
    BlockedAttempt P data chk ->
    SubmitOutcome P data st
      (setIsLoading false
         (setIsLoading false
            (setItem "loginAttempts" (Number.toString (Int MAX_LOGIN_ATTEMPTS))
               (setItem "loginLockoutEnd" (Number.toString (lockout_until chk))
                  (setLockoutEndTime (Some (lockout_until chk))
                     (setIsLocked true (setIsLoading true st)))))))
| Failed (chk : option RateLimitCheck) :
    isLocked st = false ->
    FailedAttempt P data chk ->
    SubmitOutcome P data st
      (setIsLoading false
         (setItem "loginAttempts"
            (Number.toString
               (Int (MAX_LOGIN_ATTEMPTS - attemptsRemainingOf chk + 1)))
            (setLoginAttempts
               (Int (MAX_LOGIN_ATTEMPTS - attemptsRemainingOf chk + 1))
               (setIsLoading true st))))
| Succeeded :
    isLocked st = false ->
    SubmitOutcome P data st
      (setIsLoading false
         (removeItem "loginLockoutEnd"
            (removeItem "loginAttempts"
               (setLoginAttempts (Int 0) (setIsLoading true st))))).

(** A platform whose rate-limit check, when it allows an attempt and
    says how many attempts remain, says between one and the threshold. *)
Definition countsWithinThreshold (P : Platform) : Prop :=
  forall email r chk k,
    check_rate_limit_reply P email = Normal r ->
    Platform.data r = Some chk ->
    allowed chk = true ->
    attempts_remaining chk = Some k ->
    1 <= k <= MAX_LOGIN_ATTEMPTS.

Definition wellBehaved (i : Input) : Prop :=
  match i with
  | Submit P _ _ => countsWithinThreshold P
  | _ => True
  end.

(** What the page keeps by design: both counters, the one of the page
    and the stored one, are integers from 0 to the threshold (the stored
    one from 1 when present), and a lockout end time is present only on
    a LOCKED guard whose stored counter is at the threshold. *)
Definition designInvariant (st : State) : Prop :=
  (exists n, loginAttempts st = Int n /\ 0 <= n <= MAX_LOGIN_ATTEMPTS)
  /\ (forall s, getItem "loginAttempts" st = Some s ->
        exists m, 1 <= m <= MAX_LOGIN_ATTEMPTS /\ s = Number.toString (Int m))
  /\ (is_Some (lockoutEndTime st) ->
        guard st = LOCKED
        /\ getItem "loginAttempts" st
           = Some (Number.toString (Int MAX_LOGIN_ATTEMPTS))).

(** The invariant that the page and the storage keep together, from
    which [designInvariant] follows: the page is locked exactly when it
    holds a lockout end time and exactly when the key [loginLockoutEnd]
    is stored, with a non-empty value and next to a stored counter at
    the threshold. *)
Definition pageInvariant (st : State) : Prop :=
  (exists n, loginAttempts st = Int n /\ 0 <= n <= MAX_LOGIN_ATTEMPTS)
  /\ (isLocked st = true <-> is_Some (lockoutEndTime st))
  /\ (isLocked st = true <-> is_Some (getItem "loginLockoutEnd" st))
  /\ (forall s, getItem "loginLockoutEnd" st = Some s -> s <> [])
  /\ (is_Some (getItem "loginLockoutEnd" st) ->
        getItem "loginAttempts" st
        = Some (Number.toString (Int MAX_LOGIN_ATTEMPTS)))
  /\ (forall s, getItem "loginAttempts" st = Some s ->
        exists m, 1 <= m <= MAX_LOGIN_ATTEMPTS /\ s = Number.toString (Int m)).

(** The invariant of the data model: the counter is an integer from 0
    to the threshold, and a lockout end time is present exactly when
    the counter has reached the threshold. *)
Definition guardInvariant (st : State) : Prop :=
  exists n, loginAttempts st = Int n
            /\ 0 <= n <= MAX_LOGIN_ATTEMPTS
            /\ (is_Some (lockoutEndTime st) <-> MAX_LOGIN_ATTEMPTS <= n).

End GuardSpec.

(** ** The five password conditions of the data model

    Stated on code units, independently of the schema: the letters and
    digits are the ASCII ones, and a symbol is any unit that is neither. *)

Module PasswordRules.

Definition longEnough (pw : jsstring) : Prop := (8 <= length pw)%nat.
Definition hasUppercase (pw : jsstring) : Prop :=
  exists c, c ∈ pw /\ 65 <= c <= 90.
Definition hasLowercase (pw : jsstring) : Prop :=
  exists c, c ∈ pw /\ 97 <= c <= 122.
Definition hasDigit (pw : jsstring) : Prop :=
  exists c, c ∈ pw /\ 48 <= c <= 57.
Definition hasSymbol (pw : jsstring) : Prop :=
  exists c, c ∈ pw /\ ~ (65 <= c <= 90 \/ 97 <= c <= 122 \/ 48 <= c <= 57).

Definition allFive (pw : jsstring) : Prop :=
  longEnough pw /\ hasUppercase pw /\ hasLowercase pw /\ hasDigit pw
  /\ hasSymbol pw.

Definition msgLength := "Password must be at least 8 characters".
Definition msgUpper := "Password must contain at least one uppercase letter".
Definition msgLower := "Password must contain at least one lowercase letter".
Definition msgDigit := "Password must contain at least one number".
Definition msgSymbol := "Password must contain at least one special character".

End PasswordRules.

(** ** The tables of the migration

    [supabase/migrations/20251022163132_...sql]: the check constraints
    of [profiles] and [security_logs], as predicates on the value of the
    column. *)

Module Database.

(** A low surrogate is the second unit of a character outside the
    basic plane; [char_length] counts characters, that is, the units of
    a well-formed string that are not low surrogates. *)
Definition isLowSurrogate (c : N) : bool := inRange 56320 57343 c.

Definition char_length (s : jsstring) : nat :=
  length (filter (fun c => negb (isLowSurrogate c)) s).

(** [CONSTRAINT username_length CHECK (char_length(username) >= 3 AND
    char_length(username) <= 30)] *)
Definition username_length (username : jsstring) : bool :=
  (3 <=? char_length username)%nat && (char_length username <=? 30)%nat.

(** A unit of the class [[a-zA-Z0-9_]]. *)
Definition isWordUnit (c : N) : bool := isAlnum c || (c =? underscore).

(** [CONSTRAINT username_format CHECK (username ~ '^[a-zA-Z0-9_]+$')] *)
Definition username_format (username : jsstring) : bool :=
  match username with
  | [] => false
  | _ => forallb isWordUnit username
  end.

(** [CONSTRAINT valid_event_type CHECK (event_type IN ('signup',
    'login', 'logout', 'failed_login', 'password_change'))] *)
Definition valid_event_type (event_type : string) : bool :=
  bool_decide
    (event_type ∈ ["signup"; "login"; "logout"; "failed_login";
                   "password_change"]).

End Database.

(** ** The event types that [useAuth] writes

    The [p_event_type] argument of each [log_security_event] call, as
    the string the source passes. *)

Module AuditLog.

Definition p_event_type_of (t : SecurityEventType) : string :=
  match t with
  | signup_success => "signup_success"
  | signup_failed => "signup_failed"
  | login_success => "login_success"
  | login_failed => "login_failed"
  | logout_success => "logout_success"
  end.

(** The event type of an audit call, [None] for any other event. *)
Definition auditEventType (e : Event) : option SecurityEventType :=
  match e with
  | Remote (rpc_log_security_event _ t) => Some t
  | _ => None
  end.

End AuditLog.

(** ** [src/components/Navbar.tsx] *)

Module Navbar.

(** [handleSignOut]: [await signOut(); window.location.href = "/"].
    The last component is the address assigned to
    [window.location.href], if the assignment is reached. *)
Definition handleSignOut {S} (P : Platform) (user : option User) (s : S)
  : Completion unit * S * list Event * option string :=
  match UseAuth.signOut P user s with
  | (Normal _, s1, t) => (Normal tt, s1, t, Some "/")
  | (Throw e, s1, t) => (Throw e, s1, t, None)
  end.

End Navbar.

(** ** What the pages render from their state *)

Module View.

Import Login.
Local Open Scope Z_scope.

(** [Signup.tsx]: the class of the label's text,
    [passwordStrength >= 70 ? "text-success" : "text-warning"]. *)
Definition strengthTextColor (strength : Z) : string :=
  if 70 <=? strength then "text-success" else "text-warning".

(** [Signup.tsx]: the meter is rendered only when [password] is truthy. *)
Definition meterShown (password : option jsstring) : bool :=
  match password with
  | None | Some [] => false
  | Some _ => true
  end.

(** [Login.tsx]: the rate-limit warning.  It is rendered when
    [loginAttempts > 0 && !isLocked], and then shows
    [MAX_LOGIN_ATTEMPTS - loginAttempts] attempts remaining. *)
Definition attemptsWarning (st : State) : option Z :=
  match loginAttempts st with
  | Int n => if (0 <? n) && negb (isLocked st)
             then Some (MAX_LOGIN_ATTEMPTS - n) else None
  | NaN => None
  end.

(** [Login.tsx]: the lockout warning, rendered when
    [isLocked && lockoutEndTime], with the minutes that remain at
    [now]. *)
Definition lockoutWarning (now : Z) (st : State) : option number :=
  match lockoutEndTime st with
  | Some t => if isLocked st && truthy t
              then Some (ceilMinutes (Number.sub t (Int now))) else None
  | None => None
  end.

(** [Login.tsx]: the fields and the button are disabled. *)
Definition fieldsDisabled (st : State) : bool := isLocked st.
Definition submitDisabled (st : State) : bool := isLoading st || isLocked st.

End View.

(** ** More statements about the login page *)

Module LoginSpec.

Import Login.
Local Open Scope Z_scope.

(** A submission that reaches the platform and succeeds there: the
    rate-limit check resolves with [rateLimitCheck] and does not block,
    [signIn] returns no error, and the recording of the attempt
    resolves. *)
Record SuccessfulAttempt (P : Platform) (data : Validations.LoginFormData)
    (rateLimitCheck : option RateLimitCheck) : Prop := {
  success_check_resolves :
    exists err, check_rate_limit_reply P (Validations.email data)
                = Normal {| Platform.data := rateLimitCheck; error := err |};
  success_check_allows : blockedBy rateLimitCheck = None;
  signIn_succeeds :
    completion (UseAuth.signIn P (Validations.email data)
                  (Validations.password data) tt)
    = Normal None;
  success_recorded :
    exists r, record_login_attempt_reply P (Validations.email data) true
              = Normal r
}.

(** The e-mail address that a remote call carries, and whether it is
    [e]: calls that carry none pass. *)
Definition carriesEmail (e : jsstring) (ev : Event) : bool :=
  match ev with
  | Remote (rpc_check_rate_limit e' _ _) => bool_decide (e' = e)
  | Remote (auth_signInWithPassword e' _) => bool_decide (e' = e)
  | Remote (rpc_record_login_attempt e' _) => bool_decide (e' = e)
  | Remote (auth_signUp e' _) => bool_decide (e' = e)
  | Remote (profiles_insert _ _ e') => bool_decide (e' = e)
  | _ => true
  end.

(** An input that leaves a lockout ending at [t] alone: a tick or a
    submission before [t]. *)
Definition before (t : Z) (i : Input) : Prop :=
  match i with
  | Tick now => now < t
  | Submit _ now _ => now < t
  | PageLoad _ => False
  end.

(** A stored text that [parseInt] reads exactly: as not a number, or
    as a safe integer.  Beyond the safe integers JavaScript rounds the
    value of the digits to a double, which the integers of [number] do
    not follow. *)
Definition readExactly (s : jsstring) : Prop :=
  match parseInt s with
  | Int t => - 2 ^ 53 < t < 2 ^ 53
  | NaN => True
  end.

(** An input on the page as it stands: anything but a reload. *)
Definition staysOnPage (i : Input) : Prop :=
  match i with
  | PageLoad _ => False
  | _ => True
  end.

(** A platform whose rate-limit procedure fails: the call resolves
    with an error and no data, whatever the address. *)
Definition checkErrors (P : Platform) : Prop :=
  forall email, exists e,
    check_rate_limit_reply P email
    = Normal {| Platform.data := None; error := Some e |}.

(** Ticks and submissions while the rate-limit procedure fails. *)
Definition duringOutage (i : Input) : Prop :=
  match i with
  | Submit P _ _ => checkErrors P
  | Tick _ => True
  | PageLoad _ => False
  end.

End LoginSpec.

(** ** More platforms for the examples *)

Module Outages.

Import Scenario.
Local Open Scope Z_scope.

(** The rate-limit check cannot be reached: its promise rejects. *)
Definition checkRejected : Platform :=
  {| signUp_reply := signUp_reply (accepting 5);
     signInWithPassword_reply := signInWithPassword_reply (accepting 5);
     signOut_reply := signOut_reply (accepting 5);
     profiles_insert_reply := profiles_insert_reply (accepting 5);
     profiles_update_reply := profiles_update_reply (accepting 5);
     log_security_event_reply := log_security_event_reply (accepting 5);
     check_rate_limit_reply := fun _ => rejected "Failed to fetch";
     record_login_attempt_reply := record_login_attempt_reply (accepting 5) |}.

(** The check denies the attempt and its answer has no readable
    [lockout_until]. *)
Definition blockingWithoutEnd : Platform :=
  {| signUp_reply := signUp_reply wrongPassword;
     signInWithPassword_reply := signInWithPassword_reply wrongPassword;
     signOut_reply := signOut_reply wrongPassword;
     profiles_insert_reply := profiles_insert_reply wrongPassword;
     profiles_update_reply := profiles_update_reply wrongPassword;
     log_security_event_reply := log_security_event_reply wrongPassword;
     check_rate_limit_reply := fun _ =>
       resolved (Some {| allowed := false; lockout_until := NaN;
                         attempts_remaining := Some 0;
                         message := None |});
     record_login_attempt_reply := record_login_attempt_reply wrongPassword |}.

End Outages.

(** * Properties of the validation schemas *)

Section ValidationFacts.

Import Validations.

Lemma inRange_spec lo hi c : inRange lo hi c = true <-> lo <= c <= hi.
Proof. unfold inRange. rewrite andb_true_iff, !N.leb_le. tauto. Qed.

Lemma existsb_inRange lo hi (s : jsstring) :
  existsb (inRange lo hi) s = true <-> exists c, c ∈ s /\ lo <= c <= hi.
Proof.
  rewrite existsb_exists. split; intros (c & Hin & Hc); exists c.
  - split; [by apply list_elem_of_In | by apply inRange_spec].
  - split; [by apply list_elem_of_In | by apply inRange_spec].
Qed.

Lemma isAlnum_spec c :
  isAlnum c = true <-> (65 <= c <= 90 \/ 97 <= c <= 122 \/ 48 <= c <= 57).
Proof.
  unfold isAlnum, isLetter, isUpper, isLower, isDigit.
  rewrite !orb_true_iff, !inRange_spec. tauto.
Qed.

(** What one run of the five checks of [passwordSchema] records. *)
Lemma passwordSchema_run (pw : jsstring) :
  runChecks passwordSchema pw =
    (pw,
     (if (length pw <? 8)%nat
      then [issue "Password must be at least 8 characters"] else [])
     ++ (if re_upper pw then []
         else [issue "Password must contain at least one uppercase letter"])
     ++ (if re_lower pw then []
         else [issue "Password must contain at least one lowercase letter"])
     ++ (if re_digit pw then []
         else [issue "Password must contain at least one number"])
     ++ (if re_special pw then []
         else [issue "Password must contain at least one special character"])).
Proof. cbn. by rewrite app_nil_r. Qed.

Lemma passwordSchema_success (pw : jsstring) :
  isSuccess (safeParse passwordSchema pw)
  = negb (length pw <? 8)%nat && re_upper pw && re_lower pw
    && re_digit pw && re_special pw.
Proof.
  unfold safeParse. rewrite passwordSchema_run.
  by destruct (length pw <? 8)%nat, (re_upper pw), (re_lower pw),
    (re_digit pw), (re_special pw).
Qed.

Import PasswordRules.

Lemma longEnough_spec pw : (length pw <? 8)%nat = false <-> longEnough pw.
Proof. unfold longEnough. rewrite Nat.ltb_ge. done. Qed.

Lemma re_upper_spec pw : re_upper pw = true <-> hasUppercase pw.
Proof. apply existsb_inRange. Qed.

Lemma re_lower_spec pw : re_lower pw = true <-> hasLowercase pw.
Proof. apply existsb_inRange. Qed.

Lemma re_digit_spec pw : re_digit pw = true <-> hasDigit pw.
Proof. apply existsb_inRange. Qed.

Lemma re_special_spec pw : re_special pw = true <-> hasSymbol pw.
Proof.
  unfold re_special, hasSymbol. rewrite existsb_exists.
  split; intros (c & Hin & Hc); exists c;
    (split; [by apply list_elem_of_In |]).
  - rewrite <- isAlnum_spec. by destruct (isAlnum c).
  - rewrite <- isAlnum_spec in Hc. by destruct (isAlnum c).
Qed.

Lemma issuesOf_safeParse checks (input : jsstring) :
  issuesOf (safeParse checks input) = (runChecks checks input).2.
Proof. unfold safeParse. by destruct (runChecks checks input) as [out [|i iss]]. Qed.

Lemma isSuccess_safeParse checks (input : jsstring) :
  isSuccess (safeParse checks input) = true
  <-> issuesOf (safeParse checks input) = [].
Proof. unfold safeParse. by destruct (runChecks checks input) as [out [|i iss]]. Qed.

Lemma safeParse_Success checks (input out : jsstring) :
  safeParse checks input = Success out
  <-> runChecks checks input = (out, []).
Proof.
  unfold safeParse. destruct (runChecks checks input) as [o [|i iss]];
    split; intros H; by inversion H.
Qed.

Lemma elem_of_if_singleton {A} (b : bool) (x y : A) :
  x ∈ (if b then [y] else []) <-> b = true /\ x = y.
Proof.
  destruct b.
  - rewrite list_elem_of_singleton. tauto.
  - rewrite elem_of_nil. intuition discriminate.
Qed.

Lemma elem_of_if_not_singleton {A} (b : bool) (x y : A) :
  x ∈ (if b then [] else [y]) <-> b = false /\ x = y.
Proof.
  destruct b.
  - rewrite elem_of_nil. intuition discriminate.
  - rewrite list_elem_of_singleton. tauto.
Qed.

Lemma bool_false_iff (b : bool) (P : Prop) :
  (b = true <-> P) -> (b = false <-> ~ P).
Proof. destruct b; intuition congruence. Qed.

(** The issues of [passwordSchema], one by one. *)
Lemma passwordSchema_issue_iff (pw : jsstring) (i : Issue) :
  i ∈ issuesOf (safeParse passwordSchema pw) <->
    (i = issue msgLength /\ ~ longEnough pw)
    \/ (i = issue msgUpper /\ ~ hasUppercase pw)
    \/ (i = issue msgLower /\ ~ hasLowercase pw)
    \/ (i = issue msgDigit /\ ~ hasDigit pw)
    \/ (i = issue msgSymbol /\ ~ hasSymbol pw).
Proof.
  rewrite issuesOf_safeParse, passwordSchema_run. cbn [snd].
  rewrite !elem_of_app, elem_of_if_singleton, !elem_of_if_not_singleton.
  rewrite (bool_false_iff _ _ (re_upper_spec pw)),
    (bool_false_iff _ _ (re_lower_spec pw)),
    (bool_false_iff _ _ (re_digit_spec pw)),
    (bool_false_iff _ _ (re_special_spec pw)).
  assert ((length pw <? 8)%nat = true <-> ~ longEnough pw) as ->.
  { unfold longEnough. rewrite Nat.ltb_lt. lia. }
  unfold msgLength, msgUpper, msgLower, msgDigit, msgSymbol. tauto.
Qed.

Lemma passwordSchema_allFive (pw : jsstring) :
  allFive pw <-> safeParse passwordSchema pw = Success pw.
Proof.
  rewrite safeParse_Success, passwordSchema_run. unfold allFive.
  rewrite <- longEnough_spec, <- re_upper_spec, <- re_lower_spec,
    <- re_digit_spec, <- re_special_spec.
  destruct (length pw <? 8)%nat, (re_upper pw), (re_lower pw),
    (re_digit pw), (re_special pw); cbn [app];
    (split; [intros (? & ? & ? & ? & ?); (done || discriminate)
            | intros H; (by inversion H) || done ]).
Qed.

(** C5. A password that misses at least one of the five conditions
    (eight units or more, an uppercase letter, a lowercase letter, a
    digit, a symbol) fails [passwordSchema], and the issues are
    exactly the messages of the unmet conditions: each of the five
    messages is reported if and only if its condition is unmet, and
    nothing else is reported.  A password that meets all five
    validates, unchanged. *)
Theorem passwordSchema_reports_each_unmet_condition (pw : jsstring) :
  let r := safeParse passwordSchema pw in
  (allFive pw -> r = Success pw)
  /\ (~ allFive pw -> isSuccess r = false /\ issuesOf r <> [])
  /\ (issue msgLength ∈ issuesOf r <-> ~ longEnough pw)
  /\ (issue msgUpper ∈ issuesOf r <-> ~ hasUppercase pw)
  /\ (issue msgLower ∈ issuesOf r <-> ~ hasLowercase pw)
  /\ (issue msgDigit ∈ issuesOf r <-> ~ hasDigit pw)
  /\ (issue msgSymbol ∈ issuesOf r <-> ~ hasSymbol pw)
  /\ (forall i, i ∈ issuesOf r ->
        i ∈ map issue [msgLength; msgUpper; msgLower; msgDigit; msgSymbol]).
Proof.
  cbv zeta. repeat match goal with |- _ /\ _ => split end.
  - apply passwordSchema_allFive.
  - intros Hn.
    destruct (safeParse passwordSchema pw) as [out|iss] eqn:E.
    + exfalso. apply Hn, passwordSchema_allFive.
      apply safeParse_Success in E. rewrite passwordSchema_run in E.
      apply safeParse_Success. rewrite passwordSchema_run.
      injection E as _ E2. by rewrite E2.
    + split; [done|]. cbn. intros ->.
      unfold safeParse in E.
      by destruct (runChecks passwordSchema pw) as [o [|i l]].
  - rewrite passwordSchema_issue_iff.
    split; [intros [[_ H]|[[E _]|[[E _]|[[E _]|[E _]]]]]; done | tauto].
  - rewrite passwordSchema_issue_iff.
    split; [intros [[E _]|[[_ H]|[[E _]|[[E _]|[E _]]]]]; done | tauto].
  - rewrite passwordSchema_issue_iff.
    split; [intros [[E _]|[[E _]|[[_ H]|[[E _]|[E _]]]]]; done | tauto].
  - rewrite passwordSchema_issue_iff.
    split; [intros [[E _]|[[E _]|[[E _]|[[_ H]|[E _]]]]]; done | tauto].
  - rewrite passwordSchema_issue_iff.
    split; [intros [[E _]|[[E _]|[[E _]|[[E _]|[_ H]]]]]; done | tauto].
  - intros i. rewrite passwordSchema_issue_iff. cbn [map].
    rewrite !elem_of_cons. tauto.
Qed.

(** C9. [loginSchema] accepts every password of one unit or more next
    to an e-mail address that validates: the five complexity rules are
    not part of it.  So the password a, which [passwordSchema] (the
    password field of [signupSchema]) rejects, passes the login form. *)
Theorem loginSchema_accepts_any_nonempty_password
    (e e' pw : jsstring) :
  safeParse emailSchema e = Success e' ->
  (1 <= length pw)%nat ->
  loginSchema {| email := e; password := pw |}
    = Success {| email := e'; password := pw |}.
Proof.
  intros He Hpw. unfold loginSchema. cbn [email password]. rewrite He.
  unfold safeParse. cbn [runChecks runCheck].
  destruct pw as [|c pw]; [cbn in Hpw; lia | done].
Qed.

(** The password a next to user@example.com: accepted by the login
    form, rejected by the signup schemas. *)
Lemma loginSchema_accepts_password_a :
  loginSchema {| email := js "user@example.com"; password := js "a" |}
    = Success {| email := js "user@example.com"; password := js "a" |}
  /\ isSuccess (safeParse passwordSchema (js "a")) = false
  /\ isSuccess
       (signupSchema {| username := js "user_1";
                        signup_email := js "user@example.com";
                        signup_password := js "a";
                        confirmPassword := js "a" |}) = false.
Proof.
  split; [| split; reflexivity].
  apply (loginSchema_accepts_any_nonempty_password
           (js "user@example.com") (js "user@example.com") (js "a")).
  - reflexivity.
  - vm_compute. lia.
Defined.

End ValidationFacts.

(** ** What [emailSchema] accepts *)

Section EmailFacts.

Import Validations.

Lemma splitOn_nonempty sep s : splitOn sep s <> [].
Proof.
  destruct s as [|c r]; cbn; [done|].
  destruct (c =? sep); [done|]. by destruct (splitOn sep r).
Qed.

(** Splitting and joining again gives the string back. *)
Lemma joinWith_splitOn sep s : joinWith sep (splitOn sep s) = s.
Proof.
  induction s as [|c r IH]; [done|]. cbn [splitOn].
  pose proof (splitOn_nonempty sep r) as Hne.
  destruct (N.eqb_spec c sep) as [->|_].
  - destruct (splitOn sep r) as [|p ps]; [done|]. cbn in *. by rewrite IH.
  - destruct (splitOn sep r) as [|p ps]; [done|].
    destruct ps; cbn in *; by rewrite <- IH.
Qed.

Lemma forallb_joinWith (P : N -> bool) sep parts :
  P sep = true ->
  forallb (forallb P) parts = true ->
  forallb P (joinWith sep parts) = true.
Proof.
  intros Hsep. induction parts as [|p ps IH]; [done|].
  cbn [forallb]. rewrite andb_true_iff. intros [Hp Hps].
  destruct ps as [|q qs]; [done|].
  change (joinWith sep (p :: q :: qs))
    with (p ++ sep :: joinWith sep (q :: qs)).
  rewrite forallb_app. cbn [forallb]. by rewrite Hp, Hsep, IH.
Qed.

Lemma joinWith_snoc sep parts last :
  parts <> [] ->
  joinWith sep (parts ++ [last]) = joinWith sep parts ++ sep :: last.
Proof.
  induction parts as [|p ps IH]; [done|]. intros _.
  destruct ps as [|q qs]; [done|].
  change (joinWith sep ((p :: q :: qs) ++ [last]))
    with (p ++ sep :: joinWith sep ((q :: qs) ++ [last])).
  rewrite IH by done. cbn [joinWith]. by rewrite <- app_assoc.
Qed.

Ltac class_facts :=
  unfold isLocalUnit, isLocalLast, isAlnum, isLetter, isUpper, isLower,
    isDigit, isTrimmable, isAscii, inRange, underscore, apostrophe, plus,
    hyphen, dot, at_sign in *;
  repeat match goal with
    | H : _ && _ = true |- _ => apply andb_true_iff in H as [? ?]
    | H : _ || _ = true |- _ => apply orb_true_iff in H as [?|?]
    | H : (_ <=? _) = true |- _ => apply N.leb_le in H
    | H : (_ =? _) = true |- _ => apply N.eqb_eq in H
    end.

Lemma localUnit_ascii c : isLocalUnit c = true -> isAscii c = true.
Proof. intros H. class_facts; apply N.ltb_lt; lia. Qed.

Lemma alnum_or_hyphen_ascii c :
  isAlnum c || (c =? hyphen) = true -> isAscii c = true.
Proof. intros H. class_facts; apply N.ltb_lt; lia. Qed.

Lemma letter_ascii c : isLetter c = true -> isAscii c = true.
Proof. intros H. class_facts; apply N.ltb_lt; lia. Qed.

Lemma ascii_printable_not_trimmable c :
  33 <= c <= 126 -> isTrimmable c = false.
Proof.
  intros H. unfold isTrimmable, inRange.
  repeat match goal with
    | |- context [?a <=? ?b] => destruct (N.leb_spec a b); cbn
    | |- context [?a =? ?b] => destruct (N.eqb_spec a b); cbn
    end; try done; lia.
Qed.

Lemma localUnit_not_trimmable c : isLocalUnit c = true -> isTrimmable c = false.
Proof.
  intros H. apply ascii_printable_not_trimmable. class_facts; lia.
Qed.

Lemma letter_not_trimmable c : isLetter c = true -> isTrimmable c = false.
Proof.
  intros H. apply ascii_printable_not_trimmable. class_facts; lia.
Qed.

Lemma forallb_impl {A} (P Q : A -> bool) l :
  (forall x, P x = true -> Q x = true) ->
  forallb P l = true -> forallb Q l = true.
Proof.
  intros HPQ. rewrite !forallb_forall. eauto.
Qed.

(** The shape of a string that matches the e-mail pattern. *)
Lemma emailRegex_shape s :
  emailRegex s = true ->
  exists l labels tld,
    s = l ++ at_sign :: joinWith dot (labels ++ [tld])
    /\ labels <> []
    /\ localPart l = true
    /\ forallb domainLabel labels = true
    /\ topLevel tld = true.
Proof.
  unfold emailRegex. rewrite !andb_true_iff. intros [_ Hparts].
  pose proof (joinWith_splitOn at_sign s) as Hjoin.
  destruct (splitOn at_sign s) as [|l [|d [|x xs]]]; try done.
  apply andb_true_iff in Hparts as [Hl Hd].
  unfold domainPart in Hd.
  pose proof (joinWith_splitOn dot d) as Hdjoin.
  rewrite <- (rev_involutive (splitOn dot d)) in Hdjoin.
  destruct (rev (splitOn dot d)) as [|tld [|lab labs]]; try done.
  apply andb_true_iff in Hd as [Htld Hlabels].
  exists l, (rev (lab :: labs)), tld. cbn [rev] in Hdjoin |- *.
  split; [by rewrite Hdjoin|]. split; [by destruct (rev labs)|].
  split; [done|]. split; [|done].
  rewrite forallb_forall in *. intros x Hx. apply Hlabels.
  apply (proj2 (in_rev (lab :: labs) x)). exact Hx.
Qed.

(** The pattern admits ASCII units only. *)
Lemma emailRegex_ascii s : emailRegex s = true -> forallb isAscii s = true.
Proof.
  intros (l & labels & tld & -> & _ & Hl & Hlabels & Htld)%emailRegex_shape.
  rewrite forallb_app. cbn [forallb]. apply andb_true_iff. split.
  - unfold localPart in Hl. apply andb_true_iff in Hl as [Hl _].
    eapply forallb_impl; [apply localUnit_ascii | exact Hl].
  - apply andb_true_iff. split; [done|].
    apply forallb_joinWith; [done|].
    rewrite forallb_app. cbn [forallb]. rewrite andb_true_r.
    apply andb_true_iff. split.
    + eapply forallb_impl; [|exact Hlabels].
      intros lab Hlab. destruct lab as [|c r]; [done|]. cbn [forallb].
      cbn [domainLabel] in Hlab. apply andb_true_iff in Hlab as [Hc Hr].
      apply andb_true_iff. split.
      * apply alnum_or_hyphen_ascii. by rewrite Hc.
      * eapply forallb_impl; [apply alnum_or_hyphen_ascii | exact Hr].
    + unfold topLevel in Htld. apply andb_true_iff in Htld as [_ Htld].
      eapply forallb_impl; [apply letter_ascii | exact Htld].
Qed.

(** It admits no leading or trailing white space: [trim] leaves every
    match as it is. *)
Lemma emailRegex_trim s : emailRegex s = true -> trim s = s.
Proof.
  intros (l & labels & tld & -> & Hne & Hl & _ & Htld)%emailRegex_shape.
  unfold trim.
  assert (Hhead : dropWhile isTrimmable
                    (l ++ at_sign :: joinWith dot (labels ++ [tld]))
                  = l ++ at_sign :: joinWith dot (labels ++ [tld])).
  { destruct l as [|c l]; [discriminate Hl|].
    unfold localPart in Hl. apply andb_true_iff in Hl as [Hl _].
    cbn [forallb] in Hl. apply andb_true_iff in Hl as [Hc _].
    cbn [app dropWhile]. by rewrite (localUnit_not_trimmable c Hc). }
  rewrite Hhead.
  rewrite joinWith_snoc by done.
  unfold topLevel in Htld. apply andb_true_iff in Htld as [Hlen Htld].
  destruct (rev tld) as [|c r] eqn:Hrev.
  { apply (f_equal (@length N)) in Hrev. rewrite length_rev in Hrev.
    apply Nat.leb_le in Hlen. cbn in Hrev. lia. }
  assert (Hc : isLetter c = true).
  { rewrite forallb_forall in Htld. apply Htld, in_rev. rewrite Hrev.
    by left. }
  set (front := l ++ at_sign :: joinWith dot labels ++ [dot]).
  replace (l ++ at_sign :: joinWith dot labels ++ dot :: tld)
    with (front ++ tld).
  2:{ unfold front. rewrite <- !app_assoc. cbn. by rewrite <- app_assoc. }
  rewrite rev_app_distr, Hrev. cbn [app dropWhile].
  rewrite (letter_not_trimmable c Hc).
  change (c :: r ++ rev front) with ((c :: r) ++ rev front).
  by rewrite <- Hrev, <- rev_app_distr, rev_involutive.
Qed.

(** So [emailSchema] succeeds exactly on the strings that match the
    pattern and have at most 255 units, and it returns them lower-cased:
    its [trim] step never removes anything. *)
Lemma emailSchema_success_iff (input out : jsstring) :
  safeParse emailSchema input = Success out
  <-> emailRegex input = true
      /\ (length input <= 255)%nat
      /\ out = toLowerCase input.
Proof.
  rewrite safeParse_Success. unfold emailSchema. cbn [runChecks runCheck].
  destruct (emailRegex input) eqn:Hre.
  - rewrite (emailRegex_trim _ Hre).
    destruct (Nat.ltb_spec 255 (length input)); cbn [app]; split.
    + intros [=].
    + intros (_ & ? & _). lia.
    + intros [= <-]. repeat split. lia.
    + by intros (_ & _ & ->).
  - destruct (255 <? length input)%nat; cbn [app]; split;
      (intros [=] || by intros [? _]).
Qed.

(** C4, on the code.  On the input of the specification, two spaces on
    either side of Test@Example.com, [emailSchema] does not yield the
    normalized address: the e-mail pattern is the first check and runs
    on the raw input, so the parse fails with the single issue
    Invalid email address; [trim] and [toLowerCase] only run after it.
    The same address without the padding validates and is lower-cased.
    In general, what [emailSchema] accepts is already trimmed, and is
    returned lower-cased. *)
Theorem emailSchema_padded_input_is_rejected :
  safeParse emailSchema (js "  Test@Example.com  ")
    = Failure [issue "Invalid email address"]
  /\ safeParse emailSchema (js "Test@Example.com")
     = Success (js "test@example.com")
  /\ (forall input out : jsstring,
        safeParse emailSchema input = Success out ->
        trim input = input /\ out = toLowerCase input).
Proof.
  split; [reflexivity | split; [reflexivity|]].
  intros input out (Hre & _ & ->)%emailSchema_success_iff.
  split; [by apply emailRegex_trim | done].
Qed.

End EmailFacts.

(** * Properties of the strength meter *)

Section StrengthFacts.

Import Validations Signup.
Local Open Scope Z_scope.

Lemma passwordStrength_bounds (password : option jsstring) :
  0 <= passwordStrength password <= 100.
Proof.
  destruct password as [[|c pw]|]; cbn [passwordStrength]; try lia.
  destruct (8 <=? length (c :: pw))%nat, (12 <=? length (c :: pw))%nat,
    (re_upper (c :: pw)), (re_lower (c :: pw)), (re_digit (c :: pw)),
    (re_special (c :: pw)); lia.
Qed.

(** C10. A password that [passwordSchema] accepts scores at least 90
    on the strength meter, whose maximum is 100, and is therefore
    labelled Strong (the label's threshold is 70). *)
Theorem schema_valid_password_is_strong (pw : jsstring) :
  isSuccess (safeParse passwordSchema pw) = true ->
  90 <= passwordStrength (Some pw) <= 100
  /\ strengthLabel (passwordStrength (Some pw)) = "Strong"
  /\ getStrengthColor (passwordStrength (Some pw)) = "bg-success".
Proof.
  rewrite passwordSchema_success, !andb_true_iff, negb_true_iff.
  intros [[[[Hlen Hu] Hl] Hd] Hs].
  assert (H90 : 90 <= passwordStrength (Some pw)).
  { destruct pw as [|c pw]; [discriminate|].
    cbn [passwordStrength]. rewrite Hu, Hl, Hd, Hs.
    apply Nat.ltb_ge in Hlen. apply Nat.leb_le in Hlen. rewrite Hlen.
    destruct (12 <=? length (c :: pw))%nat; lia. }
  pose proof (passwordStrength_bounds (Some pw)) as Hb.
  split; [lia|].
  unfold strengthLabel, getStrengthColor.
  destruct (Z.ltb_spec (passwordStrength (Some pw)) 40); [lia|].
  destruct (Z.ltb_spec (passwordStrength (Some pw)) 70); [lia|done].
Qed.

(** Abcdef1!, the shortest kind of valid password, scores 90. *)
Lemma schema_valid_password_is_strong_example :
  isSuccess (safeParse passwordSchema (js "Abcdef1!")) = true
  /\ passwordStrength (Some (js "Abcdef1!")) = 90
  /\ strengthLabel (passwordStrength (Some (js "Abcdef1!"))) = "Strong".
Proof.
  split; [reflexivity | split; [reflexivity |]].
  apply (schema_valid_password_is_strong (js "Abcdef1!")). reflexivity.
Defined.

End StrengthFacts.

(** * Properties of the login page *)

Section LoginFacts.

Import Validations Login GuardSpec.
Local Open Scope Z_scope.

Ltac unfold_handler :=
  unfold handleSubmit, onSubmit, attemptLogin,
    tryFinally, tryCatch, await, emit, modify, gets, throw,
    completion, finalState, trace, mbind, mret, M_bind, M_ret.

(** C2. A submission made while the page is locked is rejected on the
    spot: [onSubmit] only shows the toast Account temporarily locked,
    leaves the state as it is, and performs no remote call (no
    rate-limit check, no authentication, no recording of the attempt).
    The same holds for the form's [handleSubmit], whatever the form
    holds. *)
Theorem locked_submission_makes_no_remote_call
    (P : Platform) (now : Z) (data : LoginFormData) (st : State) :
  isLocked st = true ->
  (let out := onSubmit P now data st in
   completion out = Normal tt
   /\ finalState out = st
   /\ (exists description,
         trace out = [Toast "Account temporarily locked" description true])
   /\ Forall (fun e => isRemote e = false) (trace out))
  /\ (let out := handleSubmit P now data st in
      finalState out = st
      /\ Forall (fun e => isRemote e = false) (trace out)).
Proof.
  intros Hlocked. split.
  - unfold_handler. cbn. rewrite Hlocked. cbn.
    repeat split; eauto.
  - unfold handleSubmit. destruct (loginSchema data) as [d|iss].
    + unfold_handler. cbn. rewrite Hlocked. cbn.
      split; [done | repeat constructor].
    + unfold_handler. cbn. split; [done | constructor].
Qed.

(** A page locked until 900000, submitted at 1000: fifteen minutes to
    go, and nothing is sent. *)
Lemma locked_submission_example :
  let st := setLockoutEndTime (Some (Int 900000)) (setIsLocked true (initial ∅)) in
  let data := {| email := js "user@example.com"; password := js "secret" |} in
  isLocked st = true
  /\ trace (onSubmit Scenario.wrongPassword 1000 data st)
     = [Toast "Account temporarily locked"
          (js "Too many failed attempts. Please try again in 15 minute(s).")
          true]
  /\ Forall (fun e => isRemote e = false)
       (trace (onSubmit Scenario.wrongPassword 1000 data st)).
Proof.
  cbv zeta. split; [reflexivity | split; [reflexivity |]].
  apply (locked_submission_makes_no_remote_call Scenario.wrongPassword 1000).
  reflexivity.
Defined.

Lemma getItem_removeItem_eq key st : getItem key (removeItem key st) = None.
Proof. unfold getItem, removeItem, withStorage. cbn. apply lookup_delete_eq. Qed.

Lemma getItem_removeItem_ne key key' st :
  key <> key' -> getItem key' (removeItem key st) = getItem key' st.
Proof.
  intros Hne. unfold getItem, removeItem, withStorage. cbn.
  by apply lookup_delete_ne.
Qed.

Lemma getItem_setItem_eq key v st : getItem key (setItem key v st) = Some v.
Proof. unfold getItem, setItem, withStorage. cbn. apply lookup_insert_eq. Qed.

Lemma getItem_setItem_ne key key' v st :
  key <> key' -> getItem key' (setItem key v st) = getItem key' st.
Proof.
  intros Hne. unfold getItem, setItem, withStorage. cbn.
  by apply lookup_insert_ne.
Qed.

(** C3. Once the current time is at or past the lockout end time,
    the next observation of it, be it the one-second tick of the
    countdown or the rehydration from [localStorage] when the page
    loads, leaves the guard OPEN with [lockoutEndTime] cleared and
    [loginAttempts] at 0, and removes both stored keys,
    [loginLockoutEnd] and [loginAttempts]. *)
Theorem expired_lockout_reopens_and_clears
    (st : State) (i : Input) (now t : Z) :
  observes st i now t ->
  t <= now ->
  reopened (step st i).
Proof.
  intros [(-> & Hlocked & Hend & Ht) | (-> & s & Hs & Hne & Hparse)] Hle;
    cbn [step].
  - unfold countdownTick, countdownActive. rewrite Hlocked, Hend. cbn.
    destruct (Z.eqb_spec t 0) as [|_]; [done|]. cbn.
    destruct (Z.leb_spec t now) as [_|]; [|lia].
    repeat split.
    + rewrite getItem_removeItem_ne by done. apply getItem_removeItem_eq.
    + apply getItem_removeItem_eq.
  - unfold checkExistingLockout.
    replace (getItem "loginLockoutEnd" (initial (localStorage st)))
      with (Some s) by (symmetry; exact Hs).
    destruct s as [|c s]; [done|]. cbn [nonEmpty]. rewrite Hparse.
    cbn [Number.lt]. destruct (Z.ltb_spec now t) as [|_]; [lia|].
    rewrite getItem_removeItem_eq.
    repeat split.
    + rewrite getItem_removeItem_ne by done. apply getItem_removeItem_eq.
    + apply getItem_removeItem_eq.
Qed.

(** A lockout that ends at 900000, seen by the tick at 900000 and by a
    page load at 900001. *)
Lemma expired_lockout_examples :
  (let st := setItem "loginAttempts" (js "5")
               (setItem "loginLockoutEnd" (js "900000")
                  (setLoginAttempts (Int 5)
                     (setLockoutEndTime (Some (Int 900000))
                        (setIsLocked true (initial ∅))))) in
   guard st = LOCKED /\ reopened (step st (Tick 900000)))
  /\ (let st := initial (<["loginAttempts" := js "5"]>
                           (<["loginLockoutEnd" := js "900000"]> ∅)) in
      reopened (step st (PageLoad 900001))).
Proof.
  cbv zeta. split; [split; [reflexivity|] |].
  - apply (expired_lockout_reopens_and_clears _ (Tick 900000) 900000 900000).
    + left. repeat split. lia.
    + lia.
  - apply (expired_lockout_reopens_and_clears
             _ (PageLoad 900001) 900001 900000).
    + right. split; [reflexivity|]. exists (js "900000").
      split; [reflexivity | split; [discriminate | reflexivity]].
    + lia.
Defined.

(** [signIn] neither reads nor writes the state of the page. *)
Lemma signIn_run {S} (P : Platform) (e p : jsstring) (s : S) :
  UseAuth.signIn P e p s
  = (completion (UseAuth.signIn P e p tt), s, trace (UseAuth.signIn P e p tt)).
Proof.
  unfold UseAuth.signIn, tryCatch, await, emit, throw, completion, trace,
    mbind, mret, M_bind, M_ret. cbn.
  destruct (signInWithPassword_reply P e p) as [[[u|] [err|]]|exn]; cbn;
    repeat match goal with
      | |- context [match ?r with Normal _ => _ | Throw _ => _ end] =>
          destruct r; cbn
      end; reflexivity.
Qed.

#[local] Arguments UseAuth.signIn : simpl never.

(** The state after a failed attempt on an unlocked page. *)
Lemma onSubmit_failed_attempt P now data chk st :
  FailedAttempt P data chk ->
  isLocked st = false ->
  let n' := MAX_LOGIN_ATTEMPTS - attemptsRemainingOf chk + 1 in
  finalState (onSubmit P now data st)
  = setIsLoading false
      (setItem "loginAttempts" (Number.toString (Int n'))
         (setLoginAttempts (Int n') (setIsLoading true st))).
Proof.
  intros [[err Hchk] Hallow [e He] [r Hr]] Hopen. cbv zeta.
  unfold_handler. cbn. rewrite Hopen. cbn. rewrite Hchk. cbn.
  rewrite Hallow. unfold completion in He.
  destruct err; cbn; rewrite signIn_run; unfold completion; rewrite He;
    cbn; rewrite Hr; reflexivity.
Qed.

Lemma guard_OPEN st : guard st = OPEN <-> isLocked st = false.
Proof. unfold guard. destruct (isLocked st); split; congruence. Qed.


Lemma rejecting_FailedAttempt (remaining : Z) :
  FailedAttempt (Scenario.rejecting remaining) Scenario.form
    (Some {| allowed := true; lockout_until := NaN;
             attempts_remaining := Some remaining; message := None |}).
Proof.
  constructor.
  - exists None. reflexivity.
  - reflexivity.
  - eexists. reflexivity.
  - eexists. reflexivity.
Defined.



Ltac eval_submit Hlocked Hchk :=
  unfold_handler; cbn; rewrite Hlocked; cbn; rewrite Hchk; cbn.

Ltac eval_signIn Hblocked Hsign err :=
  rewrite Hblocked; unfold completion in Hsign;
  destruct err; cbn; rewrite signIn_run; unfold completion; rewrite Hsign; cbn.

(** Every run of [onSubmit] ends in one of five ways. *)
Lemma onSubmit_outcome P now data st :
  SubmitOutcome P data st (finalState (onSubmit P now data st)).
Proof.
  destruct (isLocked st) eqn:Hlocked.
  { replace (finalState (onSubmit P now data st)) with st.
    - by apply RejectedLocally.
    - unfold_handler. cbn. rewrite Hlocked. reflexivity. }
  destruct (check_rate_limit_reply P (email data)) as [[chk err]|exn] eqn:Hchk.
  2:{ replace (finalState (onSubmit P now data st))
        with (setIsLoading false (setIsLoading true st)).
      - by apply UnexpectedError.
      - eval_submit Hlocked Hchk. reflexivity. }
  destruct (blockedBy chk) as [c|] eqn:Hblocked.
  { assert (chk = Some c /\ allowed c = false) as [-> Hdenied].
    { unfold blockedBy in Hblocked. destruct chk as [c'|]; [|done].
      destruct (allowed c') eqn:E; [done|]. by inversion Hblocked; subst. }
    match goal with
    | |- SubmitOutcome _ _ _ ?x =>
        replace x with
        (setIsLoading false
           (setIsLoading false
              (setItem "loginAttempts" (Number.toString (Int MAX_LOGIN_ATTEMPTS))
                 (setItem "loginLockoutEnd" (Number.toString (lockout_until c))
                    (setLockoutEndTime (Some (lockout_until c))
                       (setIsLocked true (setIsLoading true st)))))))
    end.
    - apply Blocked; [done|]. constructor; [by exists err | done].
    - eval_submit Hlocked Hchk. rewrite Hdenied. by destruct err. }
  destruct (completion (UseAuth.signIn P (email data) (password data) tt))
    as [[e|]|exn] eqn:Hsign.
  - destruct (record_login_attempt_reply P (email data) false)
      as [r|exn] eqn:Hrec.
    + rewrite (onSubmit_failed_attempt P now data chk st);
        [|constructor; eauto|done].
      by apply Failed; [|constructor; eauto].
    + replace (finalState (onSubmit P now data st))
        with (setIsLoading false (setIsLoading true st)).
      * by apply UnexpectedError.
      * eval_submit Hlocked Hchk. eval_signIn Hblocked Hsign err;
          rewrite Hrec; reflexivity.
  - destruct (record_login_attempt_reply P (email data) true)
      as [r|exn] eqn:Hrec.
    + replace (finalState (onSubmit P now data st))
        with (setIsLoading false
                (removeItem "loginLockoutEnd"
                   (removeItem "loginAttempts"
                      (setLoginAttempts (Int 0) (setIsLoading true st))))).
      * by apply Succeeded.
      * eval_submit Hlocked Hchk. eval_signIn Hblocked Hsign err;
          rewrite Hrec; reflexivity.
    + replace (finalState (onSubmit P now data st))
        with (setIsLoading false (setIsLoading true st)).
      * by apply UnexpectedError.
      * eval_submit Hlocked Hchk. eval_signIn Hblocked Hsign err;
          rewrite Hrec; reflexivity.
  - replace (finalState (onSubmit P now data st))
      with (setIsLoading false (setIsLoading true st)).
    + by apply UnexpectedError.
    + eval_submit Hlocked Hchk. eval_signIn Hblocked Hsign err; reflexivity.
Qed.

Lemma toString_nonempty (a : number) : Number.toString a <> [].
Proof.
  destruct a as [|z]; [discriminate|].
  unfold Number.toString, js.
  destruct (Z.to_int z) as [d|d]; cbn; [|discriminate].
  destruct d; discriminate.
Qed.

Lemma parseInt_toString_small (m : Z) :
  1 <= m <= MAX_LOGIN_ATTEMPTS -> parseInt (Number.toString (Int m)) = Int m.
Proof.
  unfold MAX_LOGIN_ATTEMPTS. intros Hm.
  assert (m = 1 \/ m = 2 \/ m = 3 \/ m = 4 \/ m = 5) as Hcases by lia.
  destruct Hcases as [->|[->|[->|[->| ->]]]]; reflexivity.
Qed.

Lemma nonEmpty_true (s : jsstring) : s <> [] -> nonEmpty s = true.
Proof. by destruct s. Qed.

Lemma pageInvariant_initial : pageInvariant (initial ∅).
Proof.
  unfold pageInvariant, getItem. cbn. unfold MAX_LOGIN_ATTEMPTS.
  repeat split; try (intros H; (by inversion H) || by destruct H);
    try (by intros []).
  - exists 0. split; [done | lia].
Qed.


Lemma pageInvariant_setIsLoading b st :
  pageInvariant st -> pageInvariant (setIsLoading b st).
Proof. by unfold pageInvariant. Qed.

Ltac absurd_some :=
  try (intros H; (by inversion H) || by destruct H); try (by intros []).

Lemma pageInvariant_pageLoad now st :
  pageInvariant st ->
  pageInvariant (checkExistingLockout now (initial (localStorage st))).
Proof.
  intros (_ & _ & _ & Hne & H5 & Hst).
  unfold checkExistingLockout.
  change (getItem "loginLockoutEnd" (initial (localStorage st)))
    with (getItem "loginLockoutEnd" st).
  destruct (getItem "loginLockoutEnd" st) as [s|] eqn:Hkey.
  - rewrite (nonEmpty_true s) by eauto.
    specialize (H5 (ex_intro _ s eq_refl)).
    destruct (Number.lt (Int now) (parseInt s)) eqn:Hlt.
    + change (getItem "loginAttempts"
                (setLockoutEndTime (Some (parseInt s))
                   (setIsLocked true (initial (localStorage st)))))
        with (getItem "loginAttempts" st).
      rewrite H5, (nonEmpty_true _ (toString_nonempty _)).
      rewrite parseInt_toString_small by (unfold MAX_LOGIN_ATTEMPTS; lia).
      unfold pageInvariant, getItem in *. cbn. rewrite Hkey, H5.
      repeat split; eauto.
      * exists MAX_LOGIN_ATTEMPTS. unfold MAX_LOGIN_ATTEMPTS. split; [done|lia].
      * intros s0 [= <-]. exists MAX_LOGIN_ATTEMPTS.
        unfold MAX_LOGIN_ATTEMPTS. split; [lia|done].
    + rewrite getItem_removeItem_eq.
      unfold pageInvariant. rewrite getItem_removeItem_eq.
      rewrite getItem_removeItem_ne by done. rewrite getItem_removeItem_eq.
      cbn. unfold MAX_LOGIN_ATTEMPTS.
      repeat split; absurd_some.
      exists 0. split; [done | lia].
  - change (getItem "loginAttempts" (initial (localStorage st)))
      with (getItem "loginAttempts" st).
    assert (Hrest : forall n, 0 <= n <= MAX_LOGIN_ATTEMPTS ->
              pageInvariant (setLoginAttempts (Int n) (initial (localStorage st)))).
    { intros n Hn. unfold pageInvariant, getItem in *. cbn. rewrite Hkey.
      repeat split; eauto; absurd_some. }
    destruct (getItem "loginAttempts" st) as [a|] eqn:Hatt.
    + destruct (Hst a eq_refl) as (m & Hm & ->).
      rewrite (nonEmpty_true _ (toString_nonempty _)).
      rewrite parseInt_toString_small by done.
      apply Hrest. lia.
    + apply (Hrest 0). unfold MAX_LOGIN_ATTEMPTS. lia.
Qed.


Lemma pageInvariant_tick now st :
  pageInvariant st -> pageInvariant (countdownTick now st).
Proof.
  intros Hinv. unfold countdownTick.
  destruct (countdownActive st); [|done].
  destruct (lockoutEndTime st) as [t|]; [|done].
  destruct (Number.ge (Int now) t); [|done].
  unfold pageInvariant. rewrite getItem_removeItem_eq.
  rewrite getItem_removeItem_ne by done. rewrite getItem_removeItem_eq.
  cbn. unfold MAX_LOGIN_ATTEMPTS.
  repeat split; absurd_some.
  exists 0. split; [done | lia].
Qed.

(** Under a server that counts within the threshold, a failed attempt
    sets the counter between one and the threshold. *)
Lemma failed_attempt_counter_range P data chk :
  countsWithinThreshold P ->
  FailedAttempt P data chk ->
  1 <= MAX_LOGIN_ATTEMPTS - attemptsRemainingOf chk + 1 <= MAX_LOGIN_ATTEMPTS.
Proof.
  intros Hwell [[err Hchk] Hallow _ _].
  unfold attemptsRemainingOf, blockedBy in *.
  destruct chk as [c|]; [|unfold MAX_LOGIN_ATTEMPTS; lia].
  destruct (allowed c) eqn:Hc; [|done].
  destruct (attempts_remaining c) as [k|] eqn:Hk;
    [|cbn; unfold MAX_LOGIN_ATTEMPTS; lia].
  pose proof (Hwell _ _ c k Hchk eq_refl Hc Hk). cbn. lia.
Qed.

Lemma pageInvariant_submit P data st st' :
  countsWithinThreshold P ->
  pageInvariant st ->
  SubmitOutcome P data st st' ->
  pageInvariant st'.
Proof.
  intros Hwell Hinv Hout.
  destruct Hout as [Hl | Hl | chk Hl Hblocked | chk Hl Hfailed | Hl].
  - exact Hinv.
  - by do 2 apply pageInvariant_setIsLoading.
  - do 2 apply pageInvariant_setIsLoading.
    destruct Hinv as (Hn & _). unfold pageInvariant.
    rewrite getItem_setItem_eq.
    rewrite getItem_setItem_ne by done. rewrite getItem_setItem_eq.
    cbn. repeat split; eauto.
    + intros s [= <-]. apply toString_nonempty.
    + intros s [= <-]. exists MAX_LOGIN_ATTEMPTS.
      unfold MAX_LOGIN_ATTEMPTS. split; [lia|done].
  - apply pageInvariant_setIsLoading.
    pose proof (failed_attempt_counter_range _ _ _ Hwell Hfailed) as Hrange.
    destruct Hinv as (_ & Hend & Hkey & Hne & H5 & _).
    assert (getItem "loginLockoutEnd" st = None) as Hnone.
    { destruct (getItem "loginLockoutEnd" st) eqn:E; [|done].
      assert (isLocked st = true) by (apply Hkey; eauto). congruence. }
    unfold pageInvariant.
    rewrite getItem_setItem_eq. rewrite getItem_setItem_ne by done.
    unfold getItem in *. cbn. rewrite Hnone. repeat split; eauto; absurd_some.
    + exists (MAX_LOGIN_ATTEMPTS - attemptsRemainingOf chk + 1).
      split; [done|lia].
    + apply Hend.
    + apply Hend.
    + congruence.
    + intros s [= <-]. eauto.
  - apply pageInvariant_setIsLoading.
    destruct Hinv as (_ & Hend & _).
    unfold pageInvariant. rewrite getItem_removeItem_eq.
    rewrite getItem_removeItem_ne by done. rewrite getItem_removeItem_eq.
    cbn. rewrite Hl. unfold MAX_LOGIN_ATTEMPTS.
    repeat split; absurd_some.
    + exists 0. split; [done | lia].
    + intros H. apply Hend in H. congruence.
Qed.

Lemma handleSubmit_outcome P now form st :
  finalState (handleSubmit P now form st) = st
  \/ exists data, finalState (handleSubmit P now form st)
                  = finalState (onSubmit P now data st).
Proof.
  unfold handleSubmit. destruct (loginSchema form) as [data|iss].
  - right. exists data. unfold finalState, mbind, mret, M_bind, M_ret.
    destruct (onSubmit P now data st) as [[[u|e] s1] t1]; reflexivity.
  - left. reflexivity.
Qed.

Lemma pageInvariant_step st i :
  wellBehaved i -> pageInvariant st -> pageInvariant (step st i).
Proof.
  intros Hwell Hinv. destruct i as [now | now | P now form]; cbn [step].
  - by apply pageInvariant_pageLoad.
  - by apply pageInvariant_tick.
  - destruct (handleSubmit_outcome P now form st) as [-> | [data ->]];
      [done|].
    eapply pageInvariant_submit; [exact Hwell | exact Hinv |].
    apply onSubmit_outcome.
Qed.

Lemma pageInvariant_run inputs st :
  Forall wellBehaved inputs -> pageInvariant st ->
  pageInvariant (run inputs st).
Proof.
  intros Hwell. revert st.
  induction Hwell as [|i inputs Hi _ IH]; intros st Hinv; [done|].
  cbn. apply IH. by apply pageInvariant_step.
Qed.

Lemma pageInvariant_design st : pageInvariant st -> designInvariant st.
Proof.
  intros (Hn & Hend & Hkey & _ & H5 & Hst). unfold designInvariant.
  split; [exact Hn|]. split; [exact Hst|].
  intros Hsome. apply Hend in Hsome.
  split; [unfold guard; by rewrite Hsome|].
  apply H5, Hkey, Hsome.
Qed.

(** The state and the calls of a submission that the server denies. *)
Lemma onSubmit_blocked P now data chk st :
  BlockedAttempt P data chk ->
  isLocked st = false ->
  let out := onSubmit P now data st in
  finalState out
  = setIsLoading false
      (setIsLoading false
         (setItem "loginAttempts" (Number.toString (Int MAX_LOGIN_ATTEMPTS))
            (setItem "loginLockoutEnd" (Number.toString (lockout_until chk))
               (setLockoutEndTime (Some (lockout_until chk))
                  (setIsLocked true (setIsLoading true st))))))
  /\ existsb isAuthentication (trace out) = false.
Proof.
  intros [[err Hchk] Hdenied] Hopen. cbv zeta.
  split; eval_submit Hopen Hchk; rewrite Hdenied; by destruct err.
Qed.

(** C1, as the code has it.  On an OPEN guard, the failed attempt that
    brings the counter to the threshold (the server reporting one
    attempt left) sets the counter to 5 and nothing more: the guard is
    still OPEN, [lockoutEndTime] and the stored key [loginLockoutEnd]
    are as they were.  The guard becomes LOCKED on a submission that
    the server's rate-limit check denies: [lockoutEndTime] is then the
    [lockout_until] of the server's answer, stored under
    [loginLockoutEnd] next to a stored counter of 5, and no
    authentication call is made. *)
Theorem guard_locks_on_server_denial
    (P : Platform) (now : Z) (data : LoginFormData) (st : State) :
  guard st = OPEN ->
  let out := onSubmit P now data st in
  let st' := finalState out in
  (forall chk, FailedAttempt P data chk ->
               attemptsRemainingOf chk = 1 ->
               loginAttempts st' = Int MAX_LOGIN_ATTEMPTS
               /\ guard st' = OPEN
               /\ lockoutEndTime st' = lockoutEndTime st
               /\ getItem "loginLockoutEnd" st' = getItem "loginLockoutEnd" st)
  /\ (forall chk, BlockedAttempt P data chk ->
                  guard st' = LOCKED
                  /\ lockoutEndTime st' = Some (lockout_until chk)
                  /\ getItem "loginLockoutEnd" st'
                     = Some (Number.toString (lockout_until chk))
                  /\ getItem "loginAttempts" st'
                     = Some (Number.toString (Int MAX_LOGIN_ATTEMPTS))
                  /\ existsb isAuthentication (trace out) = false).
Proof.
  intros Hopen. apply guard_OPEN in Hopen. cbv zeta. split.
  - intros chk Hfail Hone.
    rewrite (onSubmit_failed_attempt _ _ _ _ _ Hfail Hopen). cbv zeta.
    rewrite Hone. repeat split.
    + apply guard_OPEN. exact Hopen.
    + cbn. by apply lookup_insert_ne.
  - intros chk Hblocked.
    destruct (onSubmit_blocked _ now _ _ _ Hblocked Hopen) as [-> Hcalls].
    repeat split.
    + unfold getItem. cbn. rewrite lookup_insert_ne by done.
      apply lookup_insert_eq.
    + unfold getItem. cbn. apply lookup_insert_eq.
    + exact Hcalls.
Qed.

Lemma blocking_BlockedAttempt (until : Z) :
  BlockedAttempt (Scenario.blocking until) Scenario.form
    {| allowed := false; lockout_until := Int until;
       attempts_remaining := Some 0;
       message := Some (js "Too many failed login attempts.") |}.
Proof. constructor; [by exists None | done]. Qed.

(** The fifth failure at 5000 and a sixth submission at 6000 that the
    server denies until 901000. *)
Lemma guard_locks_on_server_denial_example :
  let st4 := run Scenario.fourFailures (initial ∅) in
  let st5 := finalState (onSubmit (Scenario.rejecting 1) 5000 Scenario.form st4) in
  let st6 := finalState (onSubmit (Scenario.blocking 901000) 6000 Scenario.form st5) in
  guard st4 = OPEN
  /\ loginAttempts st5 = Int 5
  /\ guard st5 = OPEN
  /\ guard st6 = LOCKED
  /\ lockoutEndTime st6 = Some (Int 901000)
  /\ getItem "loginLockoutEnd" st6 = Some (js "901000").
Proof.
  cbv zeta.
  assert (H4 : guard (run Scenario.fourFailures (initial ∅)) = OPEN)
    by (vm_compute; reflexivity).
  destruct (guard_locks_on_server_denial
              (Scenario.rejecting 1) 5000 Scenario.form _ H4) as [Hfifth _].
  destruct (Hfifth _ (rejecting_FailedAttempt 1) eq_refl) as (Hn & Ho & _).
  destruct (guard_locks_on_server_denial
              (Scenario.blocking 901000) 6000 Scenario.form _ Ho) as [_ Hsixth].
  destruct (Hsixth _ (blocking_BlockedAttempt 901000)) as (Hl & He & Hk & _).
  split; [exact H4|]. split; [exact Hn|]. split; [exact Ho|].
  split; [exact Hl|]. split; [exact He | exact Hk].
Defined.

(** C1, as the specification has it, fails.  After four failed
    attempts and a fifth one at time 5000, the server counting down to
    one attempt left, the counter is 5 but the guard is OPEN and no
    lockout end time is set, in the page or in [localStorage]; it is not
    5000 plus [LOCKOUT_DURATION]. *)
Lemma fifth_failed_attempt_does_not_lock :
  let st4 := run Scenario.fourFailures (initial ∅) in
  let st5 := step st4 (Submit (Scenario.rejecting 1) 5000 Scenario.form) in
  guard st4 = OPEN
  /\ loginAttempts st4 = Int 4
  /\ FailedAttempt (Scenario.rejecting 1) Scenario.form
       (Some {| allowed := true; lockout_until := NaN;
                attempts_remaining := Some 1; message := None |})
  /\ loginAttempts st5 = Int 5
  /\ guard st5 <> LOCKED
  /\ lockoutEndTime st5 <> Some (Int (5000 + LOCKOUT_DURATION))
  /\ lockoutEndTime st5 = None
  /\ getItem "loginLockoutEnd" st5 = None.
Proof.
  cbv zeta.
  split; [vm_compute; reflexivity|]. split; [vm_compute; reflexivity|].
  split; [apply rejecting_FailedAttempt|].
  split; [vm_compute; reflexivity|].
  split; [vm_compute; discriminate|]. split; [vm_compute; discriminate|].
  split; vm_compute; reflexivity.
Qed.

Lemma rejecting_countsWithinThreshold (remaining : Z) :
  1 <= remaining <= MAX_LOGIN_ATTEMPTS ->
  countsWithinThreshold (Scenario.rejecting remaining).
Proof.
  intros Hr email r chk k Hreply Hdata _ Hk.
  cbn in Hreply. injection Hreply as <-. cbn in Hdata.
  injection Hdata as <-. cbn in Hk. injection Hk as <-. exact Hr.
Qed.

Lemma blocking_countsWithinThreshold (until : Z) :
  countsWithinThreshold (Scenario.blocking until).
Proof.
  intros email r chk k Hreply Hdata Hallowed _.
  cbn in Hreply. injection Hreply as <-. cbn in Hdata.
  injection Hdata as <-. discriminate Hallowed.
Qed.

(** C7, as the code has it.  In every state that the page reaches from
    a browser with nothing stored, under servers whose rate-limit check
    counts within the threshold, the counter of the page is an integer
    from 0 to 5, the stored counter is an integer from 1 to 5 when
    present, and a lockout end time is present only if the guard is
    LOCKED and the stored counter is at the threshold. *)
Theorem reachable_states_keep_design_invariant (inputs : list Input) :
  Forall wellBehaved inputs ->
  designInvariant (run inputs (initial ∅)).
Proof.
  intros Hwell. apply pageInvariant_design.
  apply pageInvariant_run; [exact Hwell | apply pageInvariant_initial].
Qed.

(** Five failures and the denied sixth submission: a state with a
    lockout end time, in which the invariant holds. *)
Lemma design_invariant_example :
  let inputs := Scenario.fiveFailures
                ++ [Submit (Scenario.blocking 901000) 6000 Scenario.form] in
  is_Some (lockoutEndTime (run inputs (initial ∅)))
  /\ designInvariant (run inputs (initial ∅)).
Proof.
  cbv zeta. split; [eexists; vm_compute; reflexivity|].
  apply (reachable_states_keep_design_invariant
           (Scenario.fiveFailures
            ++ [Submit (Scenario.blocking 901000) 6000 Scenario.form])).
  unfold Scenario.fiveFailures, Scenario.fourFailures. cbn [app].
  repeat match goal with
         | |- Forall _ (_ :: _) => constructor
         | |- Forall _ [] => constructor
         end;
    cbn [wellBehaved];
    lazymatch goal with
    | |- True => exact I
    | |- countsWithinThreshold (Scenario.blocking _) =>
        apply blocking_countsWithinThreshold
    | |- countsWithinThreshold (Scenario.rejecting _) =>
        apply rejecting_countsWithinThreshold; unfold MAX_LOGIN_ATTEMPTS; lia
    end.
Defined.

(** C7, as the specification has it, fails.  Five failed attempts in a
    row, from a browser with nothing stored, reach a state in which the
    counter is at the threshold and no lockout end time is present, in
    the page as in [localStorage]: a lockout end time is not present
    whenever the counter has reached the threshold. *)
Lemma guard_invariant_fails_after_five_failures :
  let st := run Scenario.fiveFailures (initial ∅) in
  reachable st
  /\ Forall wellBehaved Scenario.fiveFailures
  /\ loginAttempts st = Int MAX_LOGIN_ATTEMPTS
  /\ lockoutEndTime st = None
  /\ getItem "loginAttempts" st = Some (js "5")
  /\ getItem "loginLockoutEnd" st = None
  /\ ~ guardInvariant st.
Proof.
  cbv zeta. split; [by exists Scenario.fiveFailures|].
  split.
  { unfold Scenario.fiveFailures, Scenario.fourFailures. cbn [app].
    repeat match goal with
           | |- Forall _ (_ :: _) => constructor
           | |- Forall _ [] => constructor
           end;
      cbn [wellBehaved];
      lazymatch goal with
      | |- True => exact I
      | |- countsWithinThreshold (Scenario.rejecting _) =>
          apply rejecting_countsWithinThreshold; unfold MAX_LOGIN_ATTEMPTS; lia
      end. }
  split; [vm_compute; reflexivity|]. split; [vm_compute; reflexivity|].
  split; [vm_compute; reflexivity|]. split; [vm_compute; reflexivity|].
  intros (n & Hn & _ & Hiff).
  assert (n = 5) as -> by (vm_compute in Hn; congruence).
  destruct Hiff as [_ Hiff].
  destruct Hiff as [t Ht]; [unfold MAX_LOGIN_ATTEMPTS; lia|].
  vm_compute in Ht. discriminate.
Qed.

End LoginFacts.

(** * Properties of the authentication hook *)

Section AuditLogFacts.

Import UseAuth.

Ltac unfold_auth :=
  unfold signUp, signIn, signOut, tryCatch, await, emit, throw,
    completion, finalState, trace, mbind, mret, M_bind, M_ret,
    withAuditReplies.

Ltac case_replies :=
  repeat match goal with
    | |- context [match ?r with Normal _ => _ | Throw _ => _ end] =>
        destruct r as [[? [?|]]|?]; cbn
    | |- context [match ?o with Some _ => _ | None => _ end] =>
        destruct o; cbn
    end.

(** C8, as the code has it.  A failure of [log_security_event] that
    the platform client reports in the resolved result of the call
    (its [error] field) is never looked at.  In every flow, on every
    platform, whatever the other calls do (a login that fails and
    writes [login_failed] included): whatever the audit calls resolve
    with, [signUp], [signIn] and [signOut] return the same result,
    leave the same state and produce the same events, console
    included.  And whatever the audit calls resolve with, a login
    whose authentication resolved without error returns no error and
    shows the toast Welcome back!, provided the update of
    [last_login] resolves. *)
Theorem resolved_audit_failure_is_ignored
    {S : Type} (P : Platform)
    (f g : option jsstring -> SecurityEventType -> Result unit)
    (email password username : jsstring) (current : option User) (s : S) :
  let Pf := withAuditReplies P (fun u t => Normal (f u t)) in
  let Pg := withAuditReplies P (fun u t => Normal (g u t)) in
  signUp Pf email password username s = signUp Pg email password username s
  /\ signIn Pf email password s = signIn Pg email password s
  /\ signOut Pf current s = signOut Pg current s
  /\ (forall r,
        signInWithPassword_reply P email password = Normal r ->
        error r = None ->
        (forall user, data r = Some user ->
           exists r', profiles_update_reply P (id user) = Normal r') ->
        completion (signIn Pf email password s) = Normal None
        /\ Toast "Welcome back!" (js "You have successfully logged in.") false
             ∈ trace (signIn Pf email password s)).
Proof.
  cbv zeta. split; [| split; [| split]].
  - unfold_auth. cbn. case_replies; reflexivity.
  - unfold_auth. cbn. case_replies; reflexivity.
  - unfold_auth. cbn. case_replies; reflexivity.
  - intros [user err] Hauth Herr Hprofile. cbn in Herr, Hprofile. subst err.
    unfold_auth. cbn. rewrite Hauth. cbn.
    destruct user as [user|]; cbn.
    + destruct (Hprofile user eq_refl) as [r' ->]. cbn.
      split; [reflexivity | set_solver].
    + split; [reflexivity | set_solver].
Qed.

(** A login whose audit writes resolve with permission denied: the same
    run as with a working audit log, and no error.  And the same for a
    login with a wrong password, which writes [login_failed]: the same
    run, returning the error of the authentication. *)
Lemma resolved_audit_failure_example :
  (let P := withAuditReplies (Scenario.accepting 5)
              (fun _ _ => Scenario.failed tt "permission denied") in
   UseAuth.signIn P (js "user@example.com") (js "Abcdef1!") tt
     = UseAuth.signIn (Scenario.accepting 5)
         (js "user@example.com") (js "Abcdef1!") tt
   /\ completion (UseAuth.signIn P (js "user@example.com") (js "Abcdef1!") tt)
      = Normal None)
  /\ (let P := withAuditReplies Scenario.wrongPassword
                 (fun _ _ => Scenario.failed tt "permission denied") in
      UseAuth.signIn P (js "user@example.com") (js "not-my-password") tt
        = UseAuth.signIn Scenario.wrongPassword
            (js "user@example.com") (js "not-my-password") tt).
Proof.
  cbv zeta. split.
  - destruct (resolved_audit_failure_is_ignored (Scenario.accepting 5)
                (fun _ _ => {| data := tt;
                               error := Some {| errorMessage := js "permission denied" |} |})
                (fun _ _ => {| data := tt; error := None |})
                (js "user@example.com") (js "Abcdef1!") (js "user_1")
                None tt)
      as (_ & H2 & _ & H4).
    split; [exact H2|].
    apply (H4 {| data := Some Scenario.alice; error := None |});
      [reflexivity | reflexivity |].
    intros user _. eexists. reflexivity.
  - destruct (resolved_audit_failure_is_ignored Scenario.wrongPassword
                (fun _ _ => {| data := tt;
                               error := Some {| errorMessage := js "permission denied" |} |})
                (fun _ _ => {| data := tt; error := None |})
                (js "user@example.com") (js "not-my-password") (js "user_1")
                None tt)
      as (_ & H2 & _).
    exact H2.
Defined.

(** C8, as the specification has it, fails: a failed audit write is
    not logged to the console.  The platform client reports the
    failure in the resolved result of the call, which no flow reads.
    On a platform whose audit writes all fail with permission denied,
    a signup, a login and a logout succeed, each makes its audit call,
    and none writes anything to the console.  A login with a wrong
    password makes its audit call [login_failed] as well, and the one
    thing it writes to the console is the error of the authentication,
    not the failure of the audit write. *)
Lemma audit_failure_is_not_logged :
  (let P := withAuditReplies (Scenario.accepting 5)
              (fun _ _ => Scenario.failed tt "permission denied") in
   let email := js "user@example.com" in
   let password := js "Abcdef1!" in
   let login := UseAuth.signIn P email password tt in
   let signup := UseAuth.signUp P email password (js "user_1") tt in
   let logout := UseAuth.signOut P (Some Scenario.alice) tt in
   log_security_event_reply P (Some (id Scenario.alice)) login_success
     = Normal {| data := tt;
                 error := Some {| errorMessage := js "permission denied" |} |}
   /\ completion login = Normal None
   /\ existsb (fun ev => bool_decide
                 (ev = Remote (rpc_log_security_event
                                 (Some (id Scenario.alice)) login_success)))
        (trace login) = true
   /\ existsb isConsoleError (trace login) = false
   /\ completion signup = Normal None
   /\ existsb (fun ev => bool_decide
                 (ev = Remote (rpc_log_security_event
                                 (Some (id Scenario.alice)) signup_success)))
        (trace signup) = true
   /\ existsb isConsoleError (trace signup) = false
   /\ completion logout = Normal None
   /\ existsb (fun ev => bool_decide
                 (ev = Remote (rpc_log_security_event
                                 (Some (id Scenario.alice)) logout_success)))
        (trace logout) = true
   /\ existsb isConsoleError (trace logout) = false)
  /\ (let P := withAuditReplies Scenario.wrongPassword
                 (fun _ _ => Scenario.failed tt "permission denied") in
      let out := UseAuth.signIn P (js "user@example.com")
                   (js "not-my-password") tt in
      completion out
        = Normal (Some {| errorMessage := js "Invalid login credentials" |})
      /\ filter (fun ev => isConsoleError ev) (trace out)
         = [ConsoleError "[Security] Login error:"
              {| errorMessage := js "Invalid login credentials" |}]
      /\ existsb (fun ev => bool_decide
                    (ev = Remote (rpc_log_security_event None login_failed)))
           (trace out) = true).
Proof.
  cbv zeta. split.
  - repeat match goal with |- _ /\ _ => split end; vm_compute; reflexivity.
  - repeat match goal with |- _ /\ _ => split end; vm_compute; reflexivity.
Qed.

End AuditLogFacts.

(** * Further properties of the schemas *)

Section SchemaFacts.

Import Validations Database PasswordRules.

Lemma wordUnit_not_trimmable c : isWordUnit c = true -> isTrimmable c = false.
Proof.
  intros H. apply ascii_printable_not_trimmable.
  unfold isWordUnit, isAlnum, isLetter, isUpper, isLower, isDigit, inRange,
    underscore in H.
  repeat match goal with
    | H : _ && _ = true |- _ => apply andb_true_iff in H as [? ?]
    | H : _ || _ = true |- _ => apply orb_true_iff in H as [?|?]
    | H : (_ <=? _) = true |- _ => apply N.leb_le in H
    | H : (_ =? _) = true |- _ => apply N.eqb_eq in H
    end; lia.
Qed.

Lemma wordUnit_not_lowSurrogate c :
  isWordUnit c = true -> isLowSurrogate c = false.
Proof.
  intros H. unfold isLowSurrogate, inRange.
  apply andb_false_iff. left. apply N.leb_gt.
  unfold isWordUnit, isAlnum, isLetter, isUpper, isLower, isDigit, inRange,
    underscore in H.
  repeat match goal with
    | H : _ && _ = true |- _ => apply andb_true_iff in H as [? ?]
    | H : _ || _ = true |- _ => apply orb_true_iff in H as [?|?]
    | H : (_ <=? _) = true |- _ => apply N.leb_le in H
    | H : (_ =? _) = true |- _ => apply N.eqb_eq in H
    end; lia.
Qed.

(** [trim] leaves alone a string whose first and last units are not
    white space. *)
Lemma trim_untouched (s : jsstring) :
  (forall c r, s = c :: r -> isTrimmable c = false) ->
  (forall c r, rev s = c :: r -> isTrimmable c = false) ->
  trim s = s.
Proof.
  intros Hfirst Hlast. unfold trim.
  assert (dropWhile isTrimmable s = s) as ->.
  { destruct s as [|c r]; [done|]. cbn. by rewrite (Hfirst c r). }
  destruct (rev s) as [|c r] eqn:Hrev.
  - by rewrite <- (rev_involutive s), Hrev.
  - cbn. rewrite (Hlast c r eq_refl). by rewrite <- Hrev, rev_involutive.
Qed.

Lemma trim_word (s : jsstring) :
  forallb isWordUnit s = true -> trim s = s.
Proof.
  intros Hall. rewrite forallb_forall in Hall. apply trim_untouched.
  - intros c r ->. apply wordUnit_not_trimmable, Hall. by left.
  - intros c r Hrev. apply wordUnit_not_trimmable, Hall, in_rev.
    rewrite Hrev. by left.
Qed.

Lemma re_username_spec (s : jsstring) :
  re_username s = true <-> s <> [] /\ forallb isWordUnit s = true.
Proof.
  unfold re_username. destruct s as [|c r]; [|by intuition].
  split; [done | by intros [? _]].
Qed.

Lemma usernameSchema_run (u : jsstring) :
  runChecks usernameSchema u =
    (trim u,
     (if (length u <? 3)%nat
      then [issue "Username must be at least 3 characters"] else [])
     ++ (if (30 <? length u)%nat
         then [issue "Username must not exceed 30 characters"] else [])
     ++ (if re_username u then []
         else [issue "Username can only contain letters, numbers, and underscores"])).
Proof. cbn. by rewrite !app_nil_r. Qed.

Lemma usernameSchema_success_iff (u out : jsstring) :
  safeParse usernameSchema u = Success out
  <-> (3 <= length u <= 30)%nat /\ forallb isWordUnit u = true /\ out = u.
Proof.
  rewrite safeParse_Success, usernameSchema_run.
  destruct (Nat.ltb_spec (length u) 3); cbn [app].
  { split; [intros [=] | intros ([? _] & _); lia]. }
  destruct (Nat.ltb_spec 30 (length u)); cbn [app].
  { split; [intros [=] | intros ([_ ?] & _); lia]. }
  destruct (re_username u) eqn:Hre.
  - apply re_username_spec in Hre as [_ Hall]. rewrite (trim_word u Hall).
    split; [intros [= <-]; repeat split; (lia || done) | by intros (_ & _ & ->)].
  - split; [intros [=]|]. intros (Hlen & Hall & _).
    assert (re_username u = true) as Hre'; [|congruence].
    apply re_username_spec. split; [|done]. intros ->. cbn in Hlen. lia.
Qed.

(** X1. [usernameSchema] accepts exactly the strings of 3 to 30 code
    units that are all ASCII letters, digits or underscores, and returns
    them unchanged: its final [trim] never removes anything, because a
    name with white space around it has already failed the pattern.
    Each of the three messages is reported exactly when its condition
    is unmet (the empty string fails both the minimum length and the
    pattern), and no other issue is reported. *)
Theorem usernameSchema_accepts_exactly_word_names (u : jsstring) :
  (forall out, safeParse usernameSchema u = Success out
     <-> (3 <= length u <= 30)%nat /\ forallb isWordUnit u = true /\ out = u)
  /\ (issue "Username must be at least 3 characters"
        ∈ issuesOf (safeParse usernameSchema u) <-> (length u < 3)%nat)
  /\ (issue "Username must not exceed 30 characters"
        ∈ issuesOf (safeParse usernameSchema u) <-> (30 < length u)%nat)
  /\ (issue "Username can only contain letters, numbers, and underscores"
        ∈ issuesOf (safeParse usernameSchema u)
      <-> u = [] \/ forallb isWordUnit u = false)
  /\ (forall i, i ∈ issuesOf (safeParse usernameSchema u) ->
        i ∈ [issue "Username must be at least 3 characters";
             issue "Username must not exceed 30 characters";
             issue "Username can only contain letters, numbers, and underscores"]).
Proof.
  split; [intros out; apply usernameSchema_success_iff|].
  rewrite issuesOf_safeParse, usernameSchema_run. cbn [snd].
  assert (Hre : re_username u = false <-> u = [] \/ forallb isWordUnit u = false).
  { destruct (re_username u) eqn:E.
    - apply re_username_spec in E as [? E]. rewrite E. split; [done|].
      by intros [?|?].
    - split; [intros _|done]. destruct u as [|c r]; [by left|right].
      exact E. }
  destruct (Nat.ltb_spec (length u) 3), (Nat.ltb_spec 30 (length u)),
    (re_username u); cbn [app];
    repeat match goal with |- _ /\ _ => split end;
    try (intros i; rewrite ?elem_of_cons, ?elem_of_nil; intros Hi;
         rewrite ?elem_of_cons; tauto);
    rewrite ?elem_of_cons, ?elem_of_nil; unfold issue;
    try (split; [intros _; (lia || tauto) | intros _; tauto]);
    try (split; [intros H'; repeat destruct H' as [H'|H']; try discriminate H'; try done
                | intros H'; (lia || (apply Hre in H'; discriminate H') || idtac)]).
Qed.

(** A name made of word units has as many characters as code units. *)
Lemma char_length_word (u : jsstring) :
  forallb isWordUnit u = true -> char_length u = length u.
Proof.
  unfold char_length. induction u as [|c r IH]; [done|]. cbn [forallb].
  intros [Hc Hr]%andb_true_iff.
  rewrite filter_cons_True by (by rewrite (wordUnit_not_lowSurrogate c Hc)).
  cbn [length]. by rewrite IH.
Qed.

(** X2. The check constraints of the [profiles] table,
    [username_length] and [username_format], admit exactly the user
    names that [usernameSchema] accepts: a name that passes the form
    is never refused by the table for its shape, and the table admits
    no name that the form refuses. *)
Theorem usernameSchema_agrees_with_table_constraints (u : jsstring) :
  isSuccess (safeParse usernameSchema u)
  = username_length u && username_format u.
Proof.
  destruct (username_length u && username_format u) eqn:Hdb.
  - apply andb_true_iff in Hdb as [Hlen Hfmt].
    assert (Hall : forallb isWordUnit u = true).
    { unfold username_format in Hfmt. by destruct u. }
    pose proof (char_length_word u Hall) as Hcount.
    unfold username_length in Hlen. rewrite Hcount in Hlen.
    apply andb_true_iff in Hlen as [H3 H30].
    apply Nat.leb_le in H3, H30.
    assert (safeParse usernameSchema u = Success u) as ->; [|done].
    apply usernameSchema_success_iff. repeat split; (lia || done).
  - destruct (safeParse usernameSchema u) as [out|iss] eqn:Hparse; [|done].
    apply usernameSchema_success_iff in Hparse as (Hlen & Hall & ->).
    pose proof (char_length_word u Hall) as Hcount.
    assert (username_length u && username_format u = true); [|congruence].
    unfold username_length, username_format. rewrite Hcount.
    apply andb_true_iff. split.
    + apply andb_true_iff. split; apply Nat.leb_le; lia.
    + destruct u; [cbn in Hlen; lia | done].
Qed.

End SchemaFacts.

Section SignupSchemaFacts.

Import Validations.

Lemma atKey_path {A} key (r : SafeParse A) (i : Issue) :
  i ∈ atKey key r -> exists rest, path i = key :: rest.
Proof.
  unfold atKey. rewrite list_elem_of_In, in_map_iff.
  intros (j & <- & _). by eexists.
Qed.

Lemma passwordSchema_output (pw out : jsstring) :
  safeParse passwordSchema pw = Success out -> out = pw.
Proof.
  rewrite safeParse_Success, passwordSchema_run. by intros [= <- _].
Qed.

Lemma safeParse_isSuccess checks (input : jsstring) :
  isSuccess (safeParse checks input) = true
  <-> exists out, safeParse checks input = Success out.
Proof.
  destruct (safeParse checks input) as [out|iss]; cbn.
  - split; [by exists out | done].
  - split; [done | by intros [? ?]].
Qed.

(** The issues of the fields never sit at the path of the refinement. *)
Lemma mismatch_among_issues {A B C D} (u : SafeParse A) (e : SafeParse B)
    (p : SafeParse C) (c : D) (rest : list Issue) :
  {| path := ["confirmPassword"]; Zod.message := "Passwords do not match" |}
    ∈ atKey "username" u ++ atKey "email" e ++ atKey "password" p
      ++ atKey "confirmPassword" (Success c) ++ rest
  <-> {| path := ["confirmPassword"];
         Zod.message := "Passwords do not match" |} ∈ rest.
Proof.
  rewrite !elem_of_app. split; [|tauto].
  intros [Hin|[Hin|[Hin|[Hin|Hin]]]]; [| | | |done];
    try (apply atKey_path in Hin as [tl Htl]; discriminate Htl).
  by apply elem_of_nil in Hin.
Qed.

(** X3. [signupSchema] accepts a form exactly when its user name,
    e-mail address and password pass their schemas and the confirmation
    equals the password; it then returns the user name, the password
    and the confirmation unchanged and the e-mail address lower-cased.
    The issue Passwords do not match, at the path [confirmPassword],
    is reported exactly when the two passwords differ, whatever else is
    wrong with the form. *)
Theorem signupSchema_accepts_valid_matching_forms (input : SignupFormData) :
  (forall out, signupSchema input = Success out
     <-> isSuccess (safeParse usernameSchema (username input)) = true
         /\ isSuccess (safeParse emailSchema (signup_email input)) = true
         /\ isSuccess (safeParse passwordSchema (signup_password input)) = true
         /\ confirmPassword input = signup_password input
         /\ out = {| username := username input;
                     signup_email := toLowerCase (signup_email input);
                     signup_password := signup_password input;
                     confirmPassword := confirmPassword input |})
  /\ ({| path := ["confirmPassword"];
       Zod.message := "Passwords do not match" |}
        ∈ issuesOf (signupSchema input)
      <-> signup_password input <> confirmPassword input).
Proof.
  unfold signupSchema. cbv zeta.
  change (safeParse [] (confirmPassword input))
    with (Success (confirmPassword input)).
  split.
  - intros out.
    destruct (safeParse usernameSchema (username input)) as [u1|iu] eqn:Hu;
      [|split; [intros [=] | by intros (? & _)]].
    destruct (safeParse emailSchema (signup_email input)) as [e1|ie] eqn:He;
      [|split; [intros [=] | by intros (_ & ? & _)]].
    destruct (safeParse passwordSchema (signup_password input))
      as [p1|ip] eqn:Hp;
      [|split; [intros [=] | by intros (_ & _ & ? & _)]].
    apply usernameSchema_success_iff in Hu as (_ & _ & ->).
    apply emailSchema_success_iff in He as (_ & _ & ->).
    apply passwordSchema_output in Hp as ->.
    destruct (decide (signup_password input = confirmPassword input))
      as [Heq|Hne].
    + split; [by intros [= <-] | by intros (_ & _ & _ & _ & ->)].
    + split; [intros [=] | intros (_ & _ & _ & Hc & _); by symmetry in Hc].
  - destruct (safeParse usernameSchema (username input)),
      (safeParse emailSchema (signup_email input)),
      (safeParse passwordSchema (signup_password input)),
      (decide (signup_password input = confirmPassword input));
      cbn [issuesOf]; rewrite ?mismatch_among_issues;
      (split; [try done; by intros ?%elem_of_nil
              | try done; intros _; apply list_elem_of_here]).
Qed.

End SignupSchemaFacts.

Section EmailNormalForm.

Import Validations.

Lemma lowerUnit_eqb (sep c : N) :
  isLetter sep = false -> (lowerUnit c =? sep) = (c =? sep).
Proof.
  unfold lowerUnit, isLetter, isUpper, isLower, inRange.
  intros Hsep.
  destruct (N.leb_spec 65 c); cbn; [|done].
  destruct (N.leb_spec c 90); cbn; [|done].
  destruct (N.eqb_spec (c + 32) sep) as [E1|E1], (N.eqb_spec c sep) as [E2|E2];
    try done; try lia; exfalso; subst sep; revert Hsep;
    repeat match goal with
      | |- context [?a <=? ?b] => destruct (N.leb_spec a b); cbn
      end; (done || lia).
Qed.

Lemma lowerUnit_class (c : N) :
  isUpper (lowerUnit c) = false
  /\ isLetter (lowerUnit c) = isLetter c
  /\ isDigit (lowerUnit c) = isDigit c.
Proof.
  unfold lowerUnit, isLetter, isUpper, isLower, isDigit, inRange.
  destruct (N.leb_spec 65 c), (N.leb_spec c 90); cbn;
    repeat match goal with
      | |- context [?a <=? ?b] => destruct (N.leb_spec a b); cbn
      end; repeat split; try done; lia.
Qed.

Lemma lowerUnit_idem (c : N) : lowerUnit (lowerUnit c) = lowerUnit c.
Proof.
  unfold lowerUnit at 1. by rewrite (proj1 (lowerUnit_class c)).
Qed.

Lemma isAlnum_lowerUnit c : isAlnum (lowerUnit c) = isAlnum c.
Proof.
  unfold isAlnum. destruct (lowerUnit_class c) as (_ & -> & ->). done.
Qed.

Lemma isLocalUnit_lowerUnit c : isLocalUnit (lowerUnit c) = isLocalUnit c.
Proof.
  unfold isLocalUnit. rewrite isAlnum_lowerUnit.
  by rewrite !lowerUnit_eqb by done.
Qed.

Lemma isLocalLast_lowerUnit c : isLocalLast (lowerUnit c) = isLocalLast c.
Proof.
  unfold isLocalLast. rewrite isAlnum_lowerUnit.
  by rewrite !lowerUnit_eqb by done.
Qed.

Lemma forallb_map_ext {A B} (P : B -> bool) (Q : A -> bool) (f : A -> B) l :
  (forall x, P (f x) = Q x) -> forallb P (map f l) = forallb Q l.
Proof.
  intros H. induction l as [|x l IH]; [done|]. cbn. by rewrite H, IH.
Qed.

Lemma splitOn_toLowerCase (sep : N) (s : jsstring) :
  isLetter sep = false ->
  splitOn sep (toLowerCase s) = map toLowerCase (splitOn sep s).
Proof.
  intros Hsep. unfold toLowerCase.
  induction s as [|c r IH]; [done|]. cbn [map splitOn].
  rewrite (lowerUnit_eqb sep c Hsep). destruct (c =? sep).
  - by rewrite IH.
  - rewrite IH. by destruct (splitOn sep r).
Qed.

Lemma hasDoubleDot_toLowerCase (s : jsstring) :
  hasDoubleDot (toLowerCase s) = hasDoubleDot s.
Proof.
  unfold toLowerCase. induction s as [|a r IH]; [done|].
  destruct r as [|b r]; [done|].
  change (hasDoubleDot (map lowerUnit (a :: b :: r)))
    with (((lowerUnit a =? dot) && (lowerUnit b =? dot))
          || hasDoubleDot (map lowerUnit (b :: r))).
  rewrite IH. by rewrite !lowerUnit_eqb by done.
Qed.

Lemma localPart_toLowerCase (l : jsstring) :
  localPart (toLowerCase l) = localPart l.
Proof.
  unfold localPart, toLowerCase.
  rewrite (forallb_map_ext _ isLocalUnit) by apply isLocalUnit_lowerUnit.
  rewrite <- map_rev. destruct (rev l) as [|c r]; [done|]. cbn [map].
  by rewrite isLocalLast_lowerUnit.
Qed.

Lemma domainLabel_toLowerCase (l : jsstring) :
  domainLabel (toLowerCase l) = domainLabel l.
Proof.
  unfold toLowerCase. destruct l as [|c r]; [done|]. cbn [map domainLabel].
  rewrite isAlnum_lowerUnit. f_equal. apply forallb_map_ext.
  intros x. rewrite isAlnum_lowerUnit. by rewrite lowerUnit_eqb by done.
Qed.

Lemma topLevel_toLowerCase (l : jsstring) :
  topLevel (toLowerCase l) = topLevel l.
Proof.
  unfold topLevel, toLowerCase. rewrite length_map. f_equal.
  apply forallb_map_ext. intros x. apply lowerUnit_class.
Qed.

Lemma domainPart_toLowerCase (d : jsstring) :
  domainPart (toLowerCase d) = domainPart d.
Proof.
  unfold domainPart. rewrite splitOn_toLowerCase by done.
  rewrite <- map_rev. destruct (rev (splitOn dot d)) as [|tld [|lab labs]];
    [done | done |].
  cbn [map]. rewrite topLevel_toLowerCase. f_equal.
  change (forallb domainLabel (map toLowerCase (lab :: labs))
          = forallb domainLabel (lab :: labs)).
  apply forallb_map_ext, domainLabel_toLowerCase.
Qed.

(** The e-mail pattern does not tell a string from its lower-cased
    form. *)
Lemma emailRegex_toLowerCase (s : jsstring) :
  emailRegex (toLowerCase s) = emailRegex s.
Proof.
  unfold emailRegex. rewrite hasDoubleDot_toLowerCase.
  rewrite splitOn_toLowerCase by done.
  f_equal; [f_equal|].
  - destruct s as [|c r]; [done|]. cbn [toLowerCase map].
    by rewrite lowerUnit_eqb by done.
  - destruct (splitOn at_sign s) as [|l [|d [|x xs]]]; try done.
    cbn [map]. by rewrite localPart_toLowerCase, domainPart_toLowerCase.
Qed.

Lemma toLowerCase_idem (s : jsstring) :
  toLowerCase (toLowerCase s) = toLowerCase s.
Proof.
  unfold toLowerCase. rewrite map_map. apply map_ext, lowerUnit_idem.
Qed.

(** X4. What [emailSchema] returns is in normal form: it has as many
    units as the input and no upper-case letter, and validating it
    again succeeds and returns it unchanged.  An address that was
    stored after validation can therefore be validated again, or be
    compared with a newly validated one, without changing. *)
Theorem emailSchema_output_is_a_fixed_point (input out : jsstring) :
  safeParse emailSchema input = Success out ->
  safeParse emailSchema out = Success out
  /\ length out = length input
  /\ existsb isUpper out = false.
Proof.
  intros (Hre & Hlen & ->)%emailSchema_success_iff.
  split; [|split].
  - apply emailSchema_success_iff.
    rewrite emailRegex_toLowerCase, toLowerCase_idem.
    unfold toLowerCase at 1. by rewrite length_map.
  - unfold toLowerCase. by rewrite length_map.
  - unfold toLowerCase. clear. induction input as [|c r IH]; [done|].
    cbn. by rewrite (proj1 (lowerUnit_class c)), IH.
Qed.

(** Test@Example.com is returned as test@example.com, which validates
    to itself. *)
Lemma emailSchema_output_is_a_fixed_point_example :
  safeParse emailSchema (js "Test@Example.com")
    = Success (js "test@example.com")
  /\ safeParse emailSchema (js "test@example.com")
     = Success (js "test@example.com").
Proof.
  split; [reflexivity|].
  apply (emailSchema_output_is_a_fixed_point (js "Test@Example.com")).
  reflexivity.
Defined.

End EmailNormalForm.

(** * Further properties of the strength meter *)

Section MeterFacts.

Import Validations Signup View.
Local Open Scope Z_scope.

(** X5. The meter reaches 90 exactly on the passwords that
    [passwordSchema] accepts: below 90 at least one of the five
    conditions is unmet, since only the bonus for twelve characters is
    worth as little as 10. *)
Theorem meter_reaches_90_exactly_on_valid_passwords (pw : jsstring) :
  90 <= passwordStrength (Some pw)
  <-> safeParse passwordSchema pw = Success pw.
Proof.
  rewrite safeParse_Success, passwordSchema_run.
  destruct pw as [|c pw].
  { cbn. split; [lia | intros [=]]. }
  cbn [passwordStrength].
  replace (length (c :: pw) <? 8)%nat with (negb (8 <=? length (c :: pw))%nat).
  2:{ destruct (Nat.leb_spec 8 (length (c :: pw))),
        (Nat.ltb_spec (length (c :: pw)) 8); (done || lia). }
  destruct (8 <=? length (c :: pw))%nat, (12 <=? length (c :: pw))%nat,
    (re_upper (c :: pw)), (re_lower (c :: pw)), (re_digit (c :: pw)),
    (re_special (c :: pw)); cbn;
    (split; [try lia; done | try done; intros [=]]).
Qed.

Lemma existsb_app_l {A} (P : A -> bool) (l k : list A) :
  existsb P l = true -> existsb P (l ++ k) = true.
Proof. intros H. by rewrite existsb_app, H. Qed.

(** X6. Typing more never lowers the score: for every password and
    every continuation of it, the extended password scores at least as
    much. *)
Theorem meter_never_drops_when_typing (pw more : jsstring) :
  passwordStrength (Some pw) <= passwordStrength (Some (pw ++ more)).
Proof.
  destruct pw as [|c pw].
  { pose proof (passwordStrength_bounds (Some more)) as Hb.
    change (passwordStrength (Some [])) with 0. cbn [app]. lia. }
  change ((c :: pw) ++ more) with (c :: (pw ++ more)).
  cbn [passwordStrength].
  change (c :: (pw ++ more)) with ((c :: pw) ++ more).
  assert (Hlen : (length (c :: pw) <= length ((c :: pw) ++ more))%nat).
  { rewrite length_app. lia. }
  pose proof (existsb_app_l isUpper (c :: pw) more) as Hu.
  pose proof (existsb_app_l isLower (c :: pw) more) as Hl.
  pose proof (existsb_app_l isDigit (c :: pw) more) as Hd.
  pose proof (existsb_app_l (fun c => negb (isAlnum c)) (c :: pw) more) as Hs.
  unfold re_upper, re_lower, re_digit, re_special.
  destruct (Nat.leb_spec 8 (length (c :: pw))),
    (Nat.leb_spec 8 (length ((c :: pw) ++ more))),
    (Nat.leb_spec 12 (length (c :: pw))),
    (Nat.leb_spec 12 (length ((c :: pw) ++ more))); try lia;
    destruct (existsb isUpper (c :: pw));
    try rewrite (Hu eq_refl);
    destruct (existsb isLower (c :: pw));
    try rewrite (Hl eq_refl);
    destruct (existsb isDigit (c :: pw));
    try rewrite (Hd eq_refl);
    destruct (existsb (fun c => negb (isAlnum c)) (c :: pw));
    try rewrite (Hs eq_refl);
    repeat match goal with
      | |- context [if ?b then _ else _] => destruct b
      end; lia.
Qed.

(** Every code unit is an upper-case letter, a lower-case letter, a
    digit or a special character. *)
Lemma unit_has_a_class (c : N) :
  isUpper c || isLower c || isDigit c || negb (isAlnum c) = true.
Proof.
  unfold isAlnum, isLetter. destruct (isUpper c), (isLower c), (isDigit c); done.
Qed.

(** X7. The score is 0 exactly when the meter is hidden (no password
    typed yet); as soon as one character is typed it is at least 15 and
    at most 100.  For every score the three renderings agree: the label
    is Strong exactly when the bar is green, and exactly when the
    label's text is green; the label is Weak exactly when the bar is
    red. *)
Theorem meter_display_is_consistent :
  (forall password,
     (passwordStrength password = 0 <-> meterShown password = false)
     /\ (meterShown password = true ->
         15 <= passwordStrength password <= 100))
  /\ (forall strength,
        (strengthLabel strength = "Strong"
         <-> getStrengthColor strength = "bg-success")
        /\ (strengthLabel strength = "Strong"
            <-> strengthTextColor strength = "text-success")
        /\ (strengthLabel strength = "Weak"
            <-> getStrengthColor strength = "bg-destructive")).
Proof.
  split.
  - intros password.
    assert (Hshown : meterShown password = true ->
                     15 <= passwordStrength password <= 100).
    { intros Hshown. split; [|apply passwordStrength_bounds].
      destruct password as [[|c pw]|]; try discriminate Hshown.
      cbn [passwordStrength].
      pose proof (unit_has_a_class c) as Hc.
      unfold re_upper, re_lower, re_digit, re_special. cbn [existsb].
      destruct (isUpper c), (isLower c), (isDigit c), (negb (isAlnum c));
        try discriminate Hc; cbn [orb];
        repeat match goal with
          | |- context [if ?b then _ else _] => destruct b
          end; lia. }
    split; [|exact Hshown].
    destruct (meterShown password) eqn:E.
    + specialize (Hshown eq_refl). split; [lia | done].
    + split; [done|]. intros _. by destruct password as [[|c pw]|].
  - intros strength.
    unfold strengthLabel, getStrengthColor, strengthTextColor.
    destruct (Z.ltb_spec strength 40), (Z.ltb_spec strength 70),
      (Z.leb_spec 70 strength); try lia; repeat split; done.
Qed.

End MeterFacts.

(** * Further properties of the authentication hook *)

Section UseAuthFacts.

Import UseAuth AuditLog.

Ltac unfold_auth :=
  unfold Navbar.handleSignOut, signUp, signIn, signOut, tryCatch, await,
    emit, throw, completion, finalState, trace, mbind, mret, M_bind, M_ret.

Ltac case_replies :=
  repeat match goal with
    | |- context [match ?r with Normal _ => _ | Throw _ => _ end] =>
        destruct r as [[? [?|]]|?] eqn:?; cbn
    | |- context [match ?o with Some _ => _ | None => _ end] =>
        destruct o eqn:?; cbn
    end.

(** Membership in a trace that has been computed. *)
Ltac in_trace :=
  repeat match goal with
    | |- _ /\ _ => split
    | |- _ <-> _ => split
    | |- forall _, _ => intro
    | H : _ ∈ [] |- _ => by apply elem_of_nil in H
    | H : _ ∈ _ :: _ |- _ => apply elem_of_cons in H as [H|H]
    | H : Remote _ = Remote _ |- _ => injection H as H
    | H : rpc_log_security_event _ _ = rpc_log_security_event _ _ |- _ =>
        injection H as ? ?
    | H : profiles_insert _ _ _ = profiles_insert _ _ _ |- _ =>
        injection H as ? ? ?
    | H : Normal _ = Normal _ |- _ => injection H as H
    | H : Some _ = Some _ |- _ => injection H as H
    | H : _ /\ _ |- _ => destruct H
    | H : ex _ |- _ => destruct H
    | _ => discriminate
    | _ => progress subst
    end.

Ltac close_user :=
  repeat match goal with u : User |- _ => destruct u end; cbn; eauto 6.

Ltac find_in_trace :=
  repeat first [ apply list_elem_of_here | apply list_elem_of_further ].

(** [signIn] tells the page that the login succeeded only when the
    platform authenticated the credentials; it starts with the
    authentication call, and shows its toast exactly when it reports
    success. *)
Lemma signIn_verdict {S} (P : Platform) (e p : jsstring) (s : S) :
  let out := signIn P e p s in
  (exists rest, trace out = Remote (auth_signInWithPassword e p) :: rest
                /\ existsb isAuthentication rest = false)
  /\ (completion out = Normal None ->
      exists r, signInWithPassword_reply P e p = Normal r /\ error r = None)
  /\ (completion out = Normal None
      <-> Toast "Welcome back!" (js "You have successfully logged in.") false
            ∈ trace out).
Proof.
  cbv zeta. unfold_auth. cbn. case_replies;
    (split; [eexists; split; reflexivity|]);
    (split; [intros H; try discriminate H; eauto|]);
    (split; [intros H; try discriminate H; find_in_trace
            | intros H; try reflexivity; exfalso; in_trace]).
Qed.

(** X8. [signIn] reports success (no error) only when the platform
    authenticated the credentials without error.  It leaves the state
    of its caller alone, its first event is the authentication call
    with the e-mail address and password it was given, and it makes no
    second one.  The toast Welcome back! is shown exactly when it
    reports success; an error it returns has been written to the
    console, and the event [login_failed] has been sent to the audit
    log without a user id.  The event [login_success] is only ever sent
    with the id of the user that the platform returned. *)
Theorem signIn_reports_success_only_when_authenticated
    {S : Type} (P : Platform) (e p : jsstring) (s : S) :
  let out := signIn P e p s in
  finalState out = s
  /\ (exists rest, trace out = Remote (auth_signInWithPassword e p) :: rest
                   /\ existsb isAuthentication rest = false)
  /\ (completion out = Normal None ->
      exists r, signInWithPassword_reply P e p = Normal r /\ error r = None)
  /\ (completion out = Normal None
      <-> Toast "Welcome back!" (js "You have successfully logged in.") false
            ∈ trace out)
  /\ (forall err, completion out = Normal (Some err) ->
        ConsoleError "[Security] Login error:" err ∈ trace out
        /\ Remote (rpc_log_security_event None login_failed) ∈ trace out)
  /\ (forall uid ty, Remote (rpc_log_security_event (Some uid) ty) ∈ trace out ->
        ty = login_success
        /\ exists r, signInWithPassword_reply P e p = Normal r
                     /\ error r = None /\ data r = Some {| id := uid |}).
Proof.
  cbv zeta. split; [by rewrite signIn_run|].
  destruct (signIn_verdict P e p s) as (H1 & H2 & H3).
  split; [exact H1|]. split; [exact H2|]. split; [exact H3|].
  clear H1 H2 H3. unfold_auth. cbn. case_replies;
    (split; [intros err H; try discriminate H; injection H as <-;
             split; find_in_trace
            | intros uid ty H; in_trace; close_user ]).
Qed.

(** X9. [signUp] reports success only when the platform created the
    account without error.  A profile row is only ever inserted for the
    user that the platform returned, with the user name and the e-mail
    address that [signUp] was given.  The toast Account created
    successfully! is shown exactly when success is reported for a
    returned user.  When the platform resolves with neither an error
    nor a user, [signUp] still reports success, after the one call, with
    no profile row, no audit event and no toast. *)
Theorem signUp_inserts_profile_only_for_created_user
    {S : Type} (P : Platform) (e p u : jsstring) (s : S) :
  let out := signUp P e p u s in
  finalState out = s
  /\ (completion out = Normal None ->
      exists r, signUp_reply P e p = Normal r /\ error r = None)
  /\ (forall uid u' e', Remote (profiles_insert uid u' e') ∈ trace out ->
        u' = u /\ e' = e
        /\ exists r, signUp_reply P e p = Normal r /\ error r = None
                     /\ data r = Some {| id := uid |})
  /\ (Toast "Account created successfully!"
        (js "You can now log in with your credentials.") false ∈ trace out
      <-> completion out = Normal None
          /\ exists r user, signUp_reply P e p = Normal r
                            /\ data r = Some user)
  /\ (signUp_reply P e p = Normal {| data := None; error := None |} ->
      out = (Normal None, s, [Remote (auth_signUp e p)])).
Proof.
  cbv zeta. unfold_auth. cbn. case_replies;
    (split; [reflexivity|]);
    (split; [intros H; try discriminate H; eauto|]);
    (split; [intros uid u' e' H; in_trace; close_user|]);
    (split; [|intros H; try discriminate H; reflexivity]);
    (split; [intros H; in_trace; eauto; find_in_trace
            | intros [H H']; try discriminate H; in_trace; find_in_trace]).
Qed.

(** X10. The sign-out button of the navigation bar always ends on the
    home page: [signOut] never throws, so [handleSignOut] always assigns
    the address of the home page, also when the platform refused or
    failed to sign the user out.  Such a failure is only written to the
    console: no toast is shown for it.  The toast Signed out
    successfully is shown exactly when [signOut] reports success, and
    the audit event [logout_success] is sent only for a known user whose
    sign-out the platform confirmed, with that user's id. *)
Theorem handleSignOut_always_goes_home
    {S : Type} (P : Platform) (user : option User) (s : S) :
  let out := signOut P user s in
  Navbar.handleSignOut P user s = (Normal tt, s, trace out, Some "/")
  /\ (exists rest, trace out = Remote auth_signOut :: rest)
  /\ (completion out = Normal None
      <-> Toast "Signed out successfully" (js "You have been logged out.")
            false ∈ trace out)
  /\ (forall err, completion out = Normal (Some err) ->
        ConsoleError "[Security] Logout error:" err ∈ trace out
        /\ forall title description destructive,
             Toast title description destructive ∉ trace out)
  /\ (forall uid ty, Remote (rpc_log_security_event uid ty) ∈ trace out ->
        ty = logout_success
        /\ (exists usr, user = Some usr /\ uid = Some (id usr))
        /\ exists r, signOut_reply P = Normal r /\ error r = None).
Proof.
  cbv zeta. unfold_auth. cbn. destruct user as [usr|]; cbn; case_replies;
    (split; [reflexivity|]);
    (split; [eexists; reflexivity|]);
    (split; [split; [intros H; try discriminate H; find_in_trace
                    | intros H; try reflexivity; exfalso; in_trace]|]);
    (split; [intros err H;
             first [ discriminate H
                   | injection H as <-;
                     split; [find_in_trace | intros ? ? ? H; in_trace] ]
            | intros uid ty H; in_trace; eauto 6]).
Qed.

(** X11. None of the event types that [useAuth] passes to
    [log_security_event] is among the values that the check constraint
    [valid_event_type] of the table [security_logs] admits: for every
    audit call that [signUp], [signIn] or [signOut] makes, on every
    platform, the constraint refuses the event type as a value of the
    column [event_type]. *)
Theorem audit_event_types_fail_table_constraint
    {S : Type} (P : Platform) (e p u : jsstring) (user : option User) (s : S) :
  Forall (fun ev => forall ty, auditEventType ev = Some ty ->
            Database.valid_event_type (p_event_type_of ty) = false)
    (trace (signUp P e p u s) ++ trace (signIn P e p s)
     ++ trace (signOut P user s)).
Proof.
  apply Forall_forall. intros ev _ ty _. by destruct ty.
Qed.

End UseAuthFacts.

(** * Further properties of the login page *)

Section SubmissionFacts.

Import Validations Login GuardSpec LoginSpec View.
Local Open Scope Z_scope.

#[local] Arguments UseAuth.signIn : simpl never.

Ltac unfold_handler :=
  unfold handleSubmit, onSubmit, attemptLogin,
    tryFinally, tryCatch, await, emit, modify, gets, throw,
    completion, finalState, trace, mbind, mret, M_bind, M_ret.

(** [onSubmit] on a locked page. *)
Lemma onSubmit_locked P now data st :
  isLocked st = true ->
  onSubmit P now data st
  = (Normal tt, st,
     [Toast "Account temporarily locked"
        (js "Too many failed attempts. Please try again in "
         ++ Number.toString
              (ceilMinutes
                 (Number.sub (default (Int 0) (lockoutEndTime st)) (Int now)))
         ++ js " minute(s).") true]).
Proof. intros Hlocked. unfold_handler. cbn. by rewrite Hlocked. Qed.

(** [onSubmit] on an unlocked page, case by case: what is returned,
    the state that is left and the events, in order. *)
Lemma onSubmit_unlocked P now data st :
  isLocked st = false ->
  onSubmit P now data st
  = let check :=
      Remote (rpc_check_rate_limit (email data) MAX_LOGIN_ATTEMPTS 15) in
    let errorToast :=
      Toast "Error" (js "An unexpected error occurred. Please try again.")
        true in
    let idle := setIsLoading false (setIsLoading true st) in
    match check_rate_limit_reply P (email data) with
    | Throw _ => (Normal tt, idle, [check; errorToast])
    | Normal rl =>
        let logged :=
          match error rl with
          | Some e => [ConsoleError "Rate limit check error:" e]
          | None => []
          end in
        match blockedBy (Platform.data rl) with
        | Some chk =>
            (Normal tt,
             setIsLoading false
               (setIsLoading false
                  (setItem "loginAttempts"
                     (Number.toString (Int MAX_LOGIN_ATTEMPTS))
                     (setItem "loginLockoutEnd"
                        (Number.toString (lockout_until chk))
                        (setLockoutEndTime (Some (lockout_until chk))
                           (setIsLocked true (setIsLoading true st)))))),
             check :: logged
             ++ [Toast "Too many failed attempts"
                   (match message chk with
                    | Some (c :: m) => c :: m
                    | _ => js "Your account has been temporarily locked."
                    end) true])
        | None =>
            let auth :=
              trace (UseAuth.signIn P (email data) (password data) tt) in
            match completion
                    (UseAuth.signIn P (email data) (password data) tt) with
            | Throw _ => (Normal tt, idle, check :: logged ++ auth ++ [errorToast])
            | Normal err =>
                let ok := match err with Some _ => false | None => true end in
                let record :=
                  Remote (rpc_record_login_attempt (email data) ok) in
                match record_login_attempt_reply P (email data) ok with
                | Throw _ =>
                    (Normal tt, idle,
                     check :: logged ++ auth ++ [record; errorToast])
                | Normal _ =>
                    match err with
                    | Some _ =>
                        let remaining :=
                          attemptsRemainingOf (Platform.data rl) in
                        let newAttempts :=
                          MAX_LOGIN_ATTEMPTS - remaining + 1 in
                        (Normal tt,
                         setIsLoading false
                           (setItem "loginAttempts"
                              (Number.toString (Int newAttempts))
                              (setLoginAttempts (Int newAttempts)
                                 (setIsLoading true st))),
                         check :: logged ++ auth
                         ++ [record;
                             Toast "Login failed"
                               (js "Invalid credentials. "
                                ++ Number.toString
                                     (Int (Z.max 0 (remaining - 1)))
                                ++ js " attempt(s) remaining.") true])
                    | None =>
                        (Normal tt,
                         setIsLoading false
                           (removeItem "loginLockoutEnd"
                              (removeItem "loginAttempts"
                                 (setLoginAttempts (Int 0)
                                    (setIsLoading true st)))),
                         check :: logged ++ auth
                         ++ [record; Navigate "/dashboard"])
                    end
                end
            end
        end
    end.
Proof.
  intros Hopen. cbv zeta. unfold_handler. cbn. rewrite Hopen. cbn.
  destruct (check_rate_limit_reply P (email data)) as [[chk err]|exn];
    cbn; [|reflexivity].
  destruct (blockedBy chk) as [c|]; [by destruct err|].
  destruct err; cbn; rewrite signIn_run; unfold completion, trace; cbn;
    destruct (UseAuth.signIn P (email data) (password data) tt)
      as [[[[e|]|exn] u] t]; cbn;
    try destruct (record_login_attempt_reply P (email data) _); cbn;
    rewrite ?app_nil_r, <- ?app_assoc; reflexivity.
Qed.

(** The events of [signIn]. *)
Lemma signIn_events {S} (P : Platform) (e p : jsstring) (s : S) (ev : Event) :
  ev ∈ trace (UseAuth.signIn P e p s) ->
  ev = Remote (auth_signInWithPassword e p)
  \/ (exists uid, ev = Remote (profiles_update_last_login uid))
  \/ (exists u ty, ev = Remote (rpc_log_security_event u ty))
  \/ (exists label err, ev = ConsoleError label err)
  \/ ev = Toast "Welcome back!" (js "You have successfully logged in.") false.
Proof.
  unfold UseAuth.signIn, tryCatch, await, emit, throw, trace, mbind, mret,
    M_bind, M_ret. cbn.
  repeat match goal with
    | |- context [match ?r with Normal _ => _ | Throw _ => _ end] =>
        destruct r as [[? [?|]]|?]; cbn
    | |- context [match ?o with Some _ => _ | None => _ end] =>
        destruct o; cbn
    end;
    intros H;
    repeat match goal with
      | H : _ ∈ [] |- _ => by apply elem_of_nil in H
      | H : _ ∈ _ :: _ |- _ => apply elem_of_cons in H as [->|H]
      end; eauto 10.
Qed.

Lemma signIn_no_navigation {S} (P : Platform) (e p : jsstring) (s : S) to :
  Navigate to ∉ trace (UseAuth.signIn P e p s).
Proof.
  intros [H|[[? H]|[(? & ? & H)|[(? & ? & H)|H]]]]%signIn_events;
    discriminate H.
Qed.

(** X12. [onSubmit] never throws, whatever the platform does: every
    failure, rejected promises included, ends in the [catch] block.  A
    submission on an unlocked page always leaves [isLoading] false, so
    that afterwards the button is disabled only if the page is locked.
    And every submission tells the user how it ended: the last event is
    a toast, or the navigation to the dashboard. *)
Theorem onSubmit_never_throws
    (P : Platform) (now : Z) (data : LoginFormData) (st : State) :
  let out := onSubmit P now data st in
  completion out = Normal tt
  /\ (isLocked st = false ->
      isLoading (finalState out) = false
      /\ submitDisabled (finalState out) = isLocked (finalState out))
  /\ (exists front final,
        trace out = front ++ [final]
        /\ ((exists title description destructive,
               final = Toast title description destructive)
            \/ final = Navigate "/dashboard")).
Proof.
  cbv zeta. destruct (isLocked st) eqn:Hlocked.
  { rewrite onSubmit_locked by done.
    split; [done|]. split; [done|]. exists []. eexists. split; [done|].
    left. by do 3 eexists. }
  rewrite onSubmit_unlocked by done. cbv zeta.
  destruct (check_rate_limit_reply P (email data)) as [rl|exn].
  2:{ split; [done|]. split; [done|].
      eexists [_], _. split; [done|]. left. by do 3 eexists. }
  set (head := Remote (rpc_check_rate_limit (email data) MAX_LOGIN_ATTEMPTS 15)).
  set (logged := match error rl with
                 | Some e => [ConsoleError "Rate limit check error:" e]
                 | None => []
                 end).
  destruct (blockedBy (Platform.data rl)) as [chk|].
  { split; [done|]. split; [done|].
    exists (head :: logged). eexists. split; [done|]. left. by do 3 eexists. }
  set (auth := trace (UseAuth.signIn P (email data) (password data) tt)).
  destruct (completion (UseAuth.signIn P (email data) (password data) tt))
    as [err|exn].
  2:{ split; [done|]. split; [done|].
      exists (head :: logged ++ auth). eexists.
      split; [cbn; by rewrite <- app_assoc|]. left. by do 3 eexists. }
  destruct (record_login_attempt_reply P (email data)
              (match err with Some _ => false | None => true end))
    as [r|exn].
  2:{ split; [done|]. split; [done|].
      eexists (head :: logged ++ auth ++ [_]), _.
      split; [cbn; by rewrite <- !app_assoc|]. left. by do 3 eexists. }
  destruct err as [e|].
  - split; [done|]. split; [done|].
    eexists (head :: logged ++ auth ++ [_]), _.
    split; [cbn; by rewrite <- !app_assoc|]. left. by do 3 eexists.
  - split; [done|]. split; [done|].
    eexists (head :: logged ++ auth ++ [_]), _.
    split; [cbn; by rewrite <- !app_assoc|]. by right.
Qed.

(** X13. A login that succeeds on an OPEN guard resets the guard: the
    counter of the page is 0 again, both stored keys are removed, the
    guard stays OPEN, no warning about remaining attempts is rendered
    any more, and the submission ends with the recording of a
    successful attempt followed by the navigation to the dashboard. *)
Theorem successful_login_resets_the_guard
    (P : Platform) (now : Z) (data : LoginFormData)
    (chk : option RateLimitCheck) (st : State) :
  SuccessfulAttempt P data chk ->
  guard st = OPEN ->
  let out := onSubmit P now data st in
  let st' := finalState out in
  loginAttempts st' = Int 0
  /\ getItem "loginAttempts" st' = None
  /\ getItem "loginLockoutEnd" st' = None
  /\ guard st' = OPEN
  /\ isLoading st' = false
  /\ attemptsWarning st' = None
  /\ (exists front,
        trace out
        = front ++ [Remote (rpc_record_login_attempt (email data) true);
                    Navigate "/dashboard"]).
Proof.
  intros [[err Hchk] Hallow Hsign [r Hr]] Hopen%guard_OPEN. cbv zeta.
  rewrite onSubmit_unlocked by done. cbv zeta.
  rewrite Hchk. cbn [Platform.data error]. rewrite Hallow, Hsign, Hr.
  unfold finalState, trace. cbn [fst snd].
  split; [done|].
  split; [unfold getItem; cbn; rewrite lookup_delete_ne by done;
          apply lookup_delete_eq|].
  split; [unfold getItem; cbn; apply lookup_delete_eq|].
  split; [apply guard_OPEN; exact Hopen|]. split; [done|]. split; [done|].
  eexists (_ :: _ ++ _). cbn. by rewrite <- app_assoc.
Qed.

Lemma accepting_SuccessfulAttempt (remaining : Z) :
  SuccessfulAttempt (Scenario.accepting remaining) Scenario.form
    (Some {| allowed := true; lockout_until := NaN;
             attempts_remaining := Some remaining; message := None |}).
Proof.
  constructor.
  - exists None. reflexivity.
  - reflexivity.
  - reflexivity.
  - eexists. reflexivity.
Defined.

(** After two failed attempts the page counts 2; the right password
    brings it back to 0 and clears the stored counter. *)
Lemma successful_login_resets_the_guard_example :
  let st := run [PageLoad 0;
                 Submit (Scenario.rejecting 5) 1000 Scenario.form;
                 Submit (Scenario.rejecting 4) 2000 Scenario.form]
              (initial ∅) in
  let st' := finalState (onSubmit (Scenario.accepting 3) 3000 Scenario.form st) in
  loginAttempts st = Int 2
  /\ getItem "loginAttempts" st = Some (js "2")
  /\ loginAttempts st' = Int 0
  /\ getItem "loginAttempts" st' = None
  /\ guard st' = OPEN.
Proof.
  cbv zeta. split; [vm_compute; reflexivity|].
  split; [vm_compute; reflexivity|].
  assert (Hopen : guard (run [PageLoad 0;
                              Submit (Scenario.rejecting 5) 1000 Scenario.form;
                              Submit (Scenario.rejecting 4) 2000 Scenario.form]
                           (initial ∅)) = OPEN) by (vm_compute; reflexivity).
  destruct (successful_login_resets_the_guard
              (Scenario.accepting 3) 3000 Scenario.form _ _
              (accepting_SuccessfulAttempt 3) Hopen)
    as (H1 & H2 & _ & H4 & _).
  split; [exact H1 | split; [exact H2 | exact H4]].
Defined.

End SubmissionFacts.

Section SubmissionSafety.

Import Validations Login GuardSpec LoginSpec View.
Local Open Scope Z_scope.

#[local] Arguments UseAuth.signIn : simpl never.

(** Membership in the events of a submission, piece by piece. *)
Ltac split_trace H :=
  repeat match type of H with
    | _ ∈ _ :: _ => apply elem_of_cons in H as [H|H]; [try discriminate H|]
    | _ ∈ _ ++ _ => apply elem_of_app in H as [H|H]
    | _ ∈ [] => by apply elem_of_nil in H
    | _ ∈ match ?x with Some _ => _ | None => _ end => destruct x
    | _ => by apply signIn_no_navigation in H
    end.

(** X14. The login page navigates to the dashboard only after a
    successful authentication: if a submission navigates at all, then it
    navigates to the dashboard, the guard was OPEN, the platform
    resolved the authentication call for the submitted e-mail address
    and password without error, and the server's rate-limit check had
    been answered without denying the attempt. *)
Theorem dashboard_only_after_authentication
    (P : Platform) (now : Z) (data : LoginFormData) (st : State) (to : string) :
  Navigate to ∈ trace (onSubmit P now data st) ->
  to = "/dashboard"
  /\ guard st = OPEN
  /\ (exists r, signInWithPassword_reply P (email data) (password data)
                = Normal r /\ error r = None)
  /\ (exists chk, SuccessfulAttempt P data chk).
Proof.
  destruct (isLocked st) eqn:Hlocked.
  { rewrite onSubmit_locked by done. unfold trace. cbn [snd].
    intros H. split_trace H. }
  rewrite onSubmit_unlocked by done. cbv zeta.
  pose proof (signIn_no_navigation P (email data) (password data) tt to)
    as Hauth.
  pose proof (signIn_verdict P (email data) (password data) tt)
    as (_ & Hverdict & _).
  destruct (check_rate_limit_reply P (email data)) as [[chk err]|exn] eqn:Hchk;
    cbn [Platform.data error].
  2:{ unfold trace. cbn [snd]. intros H. split_trace H. }
  destruct (blockedBy chk) as [c|] eqn:Hblocked.
  { unfold trace at 1; cbn [snd]. intros H. split_trace H. }
  destruct (completion (UseAuth.signIn P (email data) (password data) tt))
    as [e|exn] eqn:Hsign.
  2:{ unfold trace at 1; cbn [snd]. intros H. split_trace H. }
  destruct (record_login_attempt_reply P (email data)
              (match e with Some _ => false | None => true end))
    as [r|exn] eqn:Hrec.
  2:{ unfold trace at 1; cbn [snd]. intros H. split_trace H. }
  destruct e as [e|].
  { unfold trace at 1; cbn [snd]. intros H. split_trace H. }
  unfold trace at 1; cbn [snd]. intros H.
  assert (to = "/dashboard") as ->.
  { split_trace H; try done. by injection H. }
  split; [done|]. split; [by apply guard_OPEN|].
  split; [by apply Hverdict|].
  exists chk. constructor; eauto.
Qed.

(** The right password on a fresh page: the submission navigates to
    the dashboard, and the platform had accepted the credentials. *)
Lemma dashboard_only_after_authentication_example :
  Navigate "/dashboard"
    ∈ trace (onSubmit (Scenario.accepting 5) 1000 Scenario.form (initial ∅))
  /\ exists r, signInWithPassword_reply (Scenario.accepting 5)
                 (email Scenario.form) (password Scenario.form) = Normal r
               /\ error r = None.
Proof.
  assert (H : Navigate "/dashboard"
                ∈ trace (onSubmit (Scenario.accepting 5) 1000 Scenario.form
                           (initial ∅))).
  { vm_compute.
    repeat first [ apply list_elem_of_here | apply list_elem_of_further ]. }
  split; [exact H|].
  apply (dashboard_only_after_authentication _ _ _ _ _ H).
Defined.

(** [onSubmit] always returns. *)
Lemma onSubmit_returns P now data st :
  completion (onSubmit P now data st) = Normal tt.
Proof.
  destruct (isLocked st) eqn:Hlocked; [by rewrite onSubmit_locked|].
  rewrite onSubmit_unlocked by done. cbv zeta.
  repeat match goal with
    | |- context [match ?x with _ => _ end] => destruct x
    end; reflexivity.
Qed.

(** The events of a submission: the rate-limit check, the events of
    [signIn], the recording of the attempt with the verdict of
    [signIn], console messages, toasts and the navigation to the
    dashboard. *)
Lemma onSubmit_events P now data st ev :
  ev ∈ trace (onSubmit P now data st) ->
  ev = Remote (rpc_check_rate_limit (email data) MAX_LOGIN_ATTEMPTS 15)
  \/ ev ∈ trace (UseAuth.signIn P (email data) (password data) tt)
  \/ (exists ok, ev = Remote (rpc_record_login_attempt (email data) ok)
                 /\ (ok = true
                     <-> completion (UseAuth.signIn P (email data)
                                       (password data) tt) = Normal None))
  \/ (exists label err, ev = ConsoleError label err)
  \/ (exists title description destructive,
        ev = Toast title description destructive)
  \/ ev = Navigate "/dashboard".
Proof.
  destruct (isLocked st) eqn:Hlocked.
  { rewrite onSubmit_locked by done. unfold trace. cbn [snd].
    intros ->%list_elem_of_singleton. do 4 right. left. by do 3 eexists. }
  rewrite onSubmit_unlocked by done. cbv zeta.
  destruct (check_rate_limit_reply P (email data)) as [[chk err]|exn];
    cbn [Platform.data error].
  2:{ unfold trace. cbn [snd]. intros H.
      apply elem_of_cons in H as [->|H]; [by left|].
      apply list_elem_of_singleton in H as ->.
      do 4 right. left. by do 3 eexists. }
  assert (Hlogged : ev ∈ match err with
                         | Some e => [ConsoleError "Rate limit check error:" e]
                         | None => []
                         end -> exists label e, ev = ConsoleError label e).
  { destruct err; [|by intros ?%elem_of_nil].
    intros ->%list_elem_of_singleton. by do 2 eexists. }
  destruct (blockedBy chk) as [c|].
  { unfold trace at 1; cbn [snd]. intros H.
    apply elem_of_cons in H as [->|H]; [by left|].
    apply elem_of_app in H as [H|H]; [do 3 right; left; auto|].
    apply list_elem_of_singleton in H as ->.
    do 4 right. left. by do 3 eexists. }
  destruct (completion (UseAuth.signIn P (email data) (password data) tt))
    as [e|exn] eqn:Hsign.
  2:{ unfold trace at 1; cbn [snd]. intros H.
      apply elem_of_cons in H as [->|H]; [by left|].
      apply elem_of_app in H as [H|H]; [do 3 right; left; auto|].
      apply elem_of_app in H as [H|H]; [right; left; exact H|].
      apply list_elem_of_singleton in H as ->.
      do 4 right. left. by do 3 eexists. }
  assert (Hrecord : (match e with Some _ => false | None => true end) = true
                    <-> Normal e = Normal (@None JsError)).
  { destruct e; split; (done || intros [=]). }
  destruct (record_login_attempt_reply P (email data)
              (match e with Some _ => false | None => true end)) as [r|exn].
  2:{ unfold trace at 1; cbn [snd]. intros H.
      apply elem_of_cons in H as [->|H]; [by left|].
      apply elem_of_app in H as [H|H]; [do 3 right; left; auto|].
      apply elem_of_app in H as [H|H]; [right; left; exact H|].
      apply elem_of_cons in H as [->|H]; [do 2 right; left; eauto|].
      apply list_elem_of_singleton in H as ->.
      do 4 right. left. by do 3 eexists. }
  destruct e as [e|].
  - unfold trace at 1; cbn [snd]. intros H.
    apply elem_of_cons in H as [->|H]; [by left|].
    apply elem_of_app in H as [H|H]; [do 3 right; left; auto|].
    apply elem_of_app in H as [H|H]; [right; left; exact H|].
    apply elem_of_cons in H as [->|H]; [do 2 right; left; eauto|].
    apply list_elem_of_singleton in H as ->.
    do 4 right. left. by do 3 eexists.
  - unfold trace at 1; cbn [snd]. intros H.
    apply elem_of_cons in H as [->|H]; [by left|].
    apply elem_of_app in H as [H|H]; [do 3 right; left; auto|].
    apply elem_of_app in H as [H|H]; [right; left; exact H|].
    apply elem_of_cons in H as [->|H]; [do 2 right; left; eauto|].
    apply list_elem_of_singleton in H as ->.
    by do 5 right.
Qed.

(** A submission that reaches the platform starts with the rate-limit
    check; a submission on a locked page reaches nothing. *)
Lemma onSubmit_first_event P now data st :
  (isLocked st = true ->
   Forall (fun ev => isRemote ev = false) (trace (onSubmit P now data st)))
  /\ (isLocked st = false ->
      exists rest,
        trace (onSubmit P now data st)
        = Remote (rpc_check_rate_limit (email data) MAX_LOGIN_ATTEMPTS 15)
          :: rest).
Proof.
  split; intros Hlocked.
  - rewrite onSubmit_locked by done. by repeat constructor.
  - rewrite onSubmit_unlocked by done. cbv zeta.
    repeat match goal with
      | |- context [match ?x with _ => _ end] => destruct x
      end; by eexists.
Qed.

Lemma loginSchema_Success_iff (form data : LoginFormData) :
  loginSchema form = Success data
  <-> emailRegex (email form) = true
      /\ (length (email form) <= 255)%nat
      /\ (1 <= length (password form))%nat
      /\ data = {| email := toLowerCase (email form);
                   password := password form |}.
Proof.
  unfold loginSchema. cbv zeta.
  destruct (safeParse emailSchema (email form)) as [e1|ie] eqn:He.
  - apply emailSchema_success_iff in He as (Hre & Hlen & ->).
    unfold safeParse. cbn [runChecks runCheck app].
    destruct (Nat.ltb_spec (length (password form)) 1); cbn [app].
    + split; [intros [=] | intros (_ & _ & ? & _); lia].
    + split; [intros [= <-]; repeat split; (done || lia)
             | by intros (_ & _ & _ & ->)].
  - split; [intros [=]|]. intros (Hre & Hlen & _).
    assert (safeParse emailSchema (email form)
            = Success (toLowerCase (email form))) as Hok
      by (by apply emailSchema_success_iff).
    congruence.
Qed.

(** [handleSubmit] on a form that validates. *)
Lemma handleSubmit_valid P now form data st :
  loginSchema form = Success data ->
  handleSubmit P now form st
  = (Normal [], finalState (onSubmit P now data st),
     trace (onSubmit P now data st)).
Proof.
  intros Hvalid. unfold handleSubmit. rewrite Hvalid.
  pose proof (onSubmit_returns P now data st) as Hret.
  unfold mbind, mret, M_bind, M_ret, completion, finalState, trace in *.
  destruct (onSubmit P now data st) as [[c s1] t1]. cbn in *. subst c.
  by rewrite app_nil_r.
Qed.

(** X15. What a submitted login form sends.  A form that does not
    validate sends nothing and changes nothing: its issues are returned
    for display.  Otherwise every call that carries an e-mail address
    carries the lower-cased address of the form; an authentication
    call is made with that address and the password of the form, and
    only in a submission whose first event is the server's rate-limit
    check for that address, with a maximum of 5 attempts in a window of
    15 minutes; and an attempt is recorded as successful exactly when
    [signIn] returned no error. *)
Theorem handleSubmit_call_discipline
    (P : Platform) (now : Z) (form : LoginFormData) (st : State) :
  let out := handleSubmit P now form st in
  let e := toLowerCase (email form) in
  (isSuccess (loginSchema form) = false ->
   out = (Normal (issuesOf (loginSchema form)), st, []))
  /\ Forall (fun ev => carriesEmail e ev = true) (trace out)
  /\ (forall ev, ev ∈ trace out -> isAuthentication ev = true ->
        ev = Remote (auth_signInWithPassword e (password form))
        /\ exists rest,
             trace out
             = Remote (rpc_check_rate_limit e MAX_LOGIN_ATTEMPTS 15) :: rest)
  /\ (forall e' ok, Remote (rpc_record_login_attempt e' ok) ∈ trace out ->
        (ok = true
         <-> completion (UseAuth.signIn P e (password form) tt)
             = Normal None)).
Proof.
  cbv zeta. destruct (loginSchema form) as [data|iss] eqn:Hparse.
  2:{ unfold handleSubmit. rewrite Hparse.
      split; [done|]. split; [constructor|].
      split; intros; by apply elem_of_nil in H. }
  rewrite (handleSubmit_valid P now form data st Hparse).
  apply loginSchema_Success_iff in Hparse as (_ & _ & _ & ->).
  set (data := {| email := toLowerCase (email form);
                  password := password form |}).
  unfold trace at 1 2 3 4. cbn [snd].
  split; [done|]. split; [|split].
  - apply Forall_forall. intros ev Hev.
    apply onSubmit_events in Hev
      as [->|[Hev|[(ok & -> & _)|[(? & ? & ->)|[(? & ? & ? & ->)| ->]]]]];
      try done; try (cbn; by apply bool_decide_eq_true_2).
    apply signIn_events in Hev
      as [->|[[? ->]|[(? & ? & ->)|[(? & ? & ->)| ->]]]];
      try done. cbn. by apply bool_decide_eq_true_2.
  - intros ev Hev Hauth.
    assert (isLocked st = false) as Hopen.
    { destruct (isLocked st) eqn:Hlocked; [|done].
      pose proof (proj1 (onSubmit_first_event P now data st) Hlocked) as Hno.
      rewrite Forall_forall in Hno. specialize (Hno ev Hev).
      destruct ev as [c| | |]; try done. }
    split; [|exact (proj2 (onSubmit_first_event P now data st) Hopen)].
    apply onSubmit_events in Hev
      as [->|[Hev|[(ok & -> & _)|[(? & ? & ->)|[(? & ? & ? & ->)| ->]]]]];
      try done.
    apply signIn_events in Hev
      as [->|[[? ->]|[(? & ? & ->)|[(? & ? & ->)| ->]]]];
      done.
  - intros e' ok Hev.
    apply onSubmit_events in Hev
      as [Hev|[Hev|[(ok' & Hev & Hok)|[(? & ? & Hev)|[(? & ? & ? & Hev)|Hev]]]]];
      try discriminate Hev.
    + apply signIn_events in Hev
        as [Hev|[[? Hev]|[(? & ? & Hev)|[(? & ? & Hev)|Hev]]]];
        discriminate Hev.
    + injection Hev as _ ->. exact Hok.
Qed.

End SubmissionSafety.

Section OutageFacts.

Import Validations Login GuardSpec LoginSpec View.
Local Open Scope Z_scope.

#[local] Arguments UseAuth.signIn : simpl never.

(** X16. When the rate-limit check cannot be made (its promise
    rejects), the login is not attempted: the submission consists of the
    check and the toast Error, no credentials are sent, and the guard,
    the counter, the lockout end time and the storage are as they were. *)
Theorem rejected_rate_limit_check_stops_the_attempt
    (P : Platform) (now : Z) (data : LoginFormData) (st : State)
    (reason : JsError) :
  check_rate_limit_reply P (email data) = Throw reason ->
  guard st = OPEN ->
  let out := onSubmit P now data st in
  trace out
  = [Remote (rpc_check_rate_limit (email data) MAX_LOGIN_ATTEMPTS 15);
     Toast "Error" (js "An unexpected error occurred. Please try again.")
       true]
  /\ existsb isAuthentication (trace out) = false
  /\ guard (finalState out) = OPEN
  /\ loginAttempts (finalState out) = loginAttempts st
  /\ lockoutEndTime (finalState out) = lockoutEndTime st
  /\ localStorage (finalState out) = localStorage st.
Proof.
  intros Hchk Hopen%guard_OPEN. cbv zeta.
  rewrite onSubmit_unlocked by done. cbv zeta. rewrite Hchk.
  repeat split. by apply guard_OPEN.
Qed.

(** The rate-limit check fails to reach the server: the right password
    is not even sent. *)
Lemma rejected_rate_limit_check_example :
  let out := onSubmit Outages.checkRejected 1000 Scenario.form (initial ∅) in
  existsb isAuthentication (trace out) = false
  /\ guard (finalState out) = OPEN
  /\ loginAttempts (finalState out) = Int 0.
Proof.
  cbv zeta.
  destruct (rejected_rate_limit_check_stops_the_attempt
              Outages.checkRejected 1000 Scenario.form (initial ∅)
              {| errorMessage := js "Failed to fetch" |} eq_refl eq_refl)
    as (_ & H2 & H3 & H4 & _).
  split; [exact H2 | split; [exact H3 | exact H4]].
Defined.



(** One input during an outage of the rate-limit procedure. *)
Lemma outage_step st i :
  isLocked st = false -> duringOutage i ->
  isLocked (step st i) = false
  /\ lockoutEndTime (step st i) = lockoutEndTime st
  /\ (loginAttempts (step st i) = Int 1
      \/ loginAttempts (step st i) = Int 0
      \/ loginAttempts (step st i) = loginAttempts st).
Proof.
  intros Hopen Hi. destruct i as [now | now | P now form]; [done| |].
  - cbn [step]. unfold countdownTick, countdownActive. rewrite Hopen.
    cbn. by repeat split; try (right; right).
  - cbn [step]. cbn in Hi.
    destruct (loginSchema form) as [data|iss] eqn:Hparse.
    2:{ unfold handleSubmit. rewrite Hparse. cbn.
        by repeat split; try (right; right). }
    rewrite (handleSubmit_valid P now form data st Hparse).
    change (finalState (Normal [], finalState (onSubmit P now data st),
                        trace (onSubmit P now data st)))
      with (finalState (onSubmit P now data st)).
    destruct (Hi (email data)) as [e He].
    rewrite onSubmit_unlocked by done. cbv zeta. rewrite He.
    cbn [Platform.data error blockedBy attemptsRemainingOf].
    repeat match goal with
      | |- context [match ?x with _ => _ end] => destruct x
      end; cbn; repeat split; auto.
Qed.

(** X18. While the rate-limit procedure fails, the page cannot lock:
    whatever the number of submissions and however many of them fail,
    the guard stays OPEN, no lockout end time is set, and the counter is
    never more than 1 unless it was so before.  With the server-side
    check out of order, nothing on the client limits the number of
    attempts. *)
Theorem rate_limit_outage_never_locks (st : State) (inputs : list Input) :
  guard st = OPEN ->
  Forall duringOutage inputs ->
  guard (run inputs st) = OPEN
  /\ lockoutEndTime (run inputs st) = lockoutEndTime st
  /\ (loginAttempts (run inputs st) = Int 1
      \/ loginAttempts (run inputs st) = Int 0
      \/ loginAttempts (run inputs st) = loginAttempts st).
Proof.
  intros Hopen%guard_OPEN Hall. rewrite guard_OPEN.
  revert st Hopen. induction Hall as [|i inputs Hi _ IH]; intros st Hopen.
  { by repeat split; try (right; right). }
  destruct (outage_step st i Hopen Hi) as (Hopen1 & Hend1 & Hcount1).
  destruct (IH (step st i) Hopen1) as (Hopen2 & Hend2 & Hcount2).
  change (run (i :: inputs) st) with (run inputs (step st i)).
  split; [done|]. split; [congruence|].
  destruct Hcount2 as [-> | [-> | ->]]; auto.
Qed.

Lemma checkUnavailable_checkErrors : checkErrors Scenario.checkUnavailable.
Proof. intros email. eexists. reflexivity. Defined.

(** Seven wrong passwords in a row while the procedure is missing: the
    page is still OPEN and counts one failed attempt. *)
Lemma rate_limit_outage_never_locks_example :
  let attempt now := Submit Scenario.checkUnavailable now Scenario.form in
  let inputs := [attempt 1000; attempt 2000; attempt 3000; Tick 3500;
                 attempt 4000; attempt 5000; attempt 6000; attempt 7000] in
  guard (run inputs (initial ∅)) = OPEN
  /\ lockoutEndTime (run inputs (initial ∅)) = None
  /\ loginAttempts (run inputs (initial ∅)) = Int 1.
Proof.
  cbv zeta.
  destruct (rate_limit_outage_never_locks (initial ∅)
              [Submit Scenario.checkUnavailable 1000 Scenario.form;
               Submit Scenario.checkUnavailable 2000 Scenario.form;
               Submit Scenario.checkUnavailable 3000 Scenario.form;
               Tick 3500;
               Submit Scenario.checkUnavailable 4000 Scenario.form;
               Submit Scenario.checkUnavailable 5000 Scenario.form;
               Submit Scenario.checkUnavailable 6000 Scenario.form;
               Submit Scenario.checkUnavailable 7000 Scenario.form]
              eq_refl)
    as (H1 & H2 & _).
  { repeat match goal with
           | |- Forall _ (_ :: _) => constructor
           | |- Forall _ [] => constructor
           end;
      cbn [duringOutage];
      lazymatch goal with
      | |- True => exact I
      | |- checkErrors _ => exact checkUnavailable_checkErrors
      end. }
  split; [exact H1 | split; [exact H2 | vm_compute; reflexivity]].
Defined.

End OutageFacts.

Section LockoutFacts.

Import Validations Login GuardSpec LoginSpec View.
Local Open Scope Z_scope.

#[local] Arguments UseAuth.signIn : simpl never.

(** A submission leaves a locked page as it is. *)
Lemma locked_step_submit P now form st :
  isLocked st = true -> step st (Submit P now form) = st.
Proof.
  intros Hlocked. cbn [step]. unfold handleSubmit.
  destruct (loginSchema form) as [data|iss]; [|done].
  unfold mbind, mret, M_bind, M_ret, finalState.
  by rewrite onSubmit_locked.
Qed.

(** X19. A lockout holds until it expires: on a page locked until
    [t], no sequence of countdown ticks and submissions made before [t]
    changes anything, neither the page state nor the stored keys. *)
Theorem lockout_holds_until_expiry
    (st : State) (t : Z) (inputs : list Input) :
  guard st = LOCKED ->
  lockoutEndTime st = Some (Int t) ->
  Forall (before t) inputs ->
  run inputs st = st.
Proof.
  intros Hguard Hend Hall.
  assert (isLocked st = true) as Hlocked.
  { unfold guard in Hguard. by destruct (isLocked st). }
  clear Hguard. induction Hall as [|i inputs Hi _ IH]; [done|].
  change (run (i :: inputs) st) with (run inputs (step st i)).
  assert (step st i = st) as ->; [|exact IH].
  destruct i as [now | now | P now form]; [done| |].
  - cbn [step]. unfold countdownTick, countdownActive.
    rewrite Hlocked, Hend. cbn in Hi |- *.
    destruct (negb (t =? 0)); [|done].
    destruct (Z.leb_spec t now); [lia|done].
  - by apply locked_step_submit.
Qed.

(** A page locked until 900000: a tick, a submission and a last tick
    one millisecond before the end leave it as it is. *)
Lemma lockout_holds_until_expiry_example :
  let st := setItem "loginAttempts" (js "5")
              (setItem "loginLockoutEnd" (js "900000")
                 (setLoginAttempts (Int 5)
                    (setLockoutEndTime (Some (Int 900000))
                       (setIsLocked true (initial ∅))))) in
  run [Tick 1000; Submit Scenario.wrongPassword 2000 Scenario.form;
       Tick 899999] st = st.
Proof.
  cbv zeta.
  apply (lockout_holds_until_expiry _ 900000); [reflexivity | reflexivity |].
  repeat match goal with
         | |- Forall _ (_ :: _) => constructor
         | |- Forall _ [] => constructor
         end; cbn [before]; lia.
Defined.

(** X20. A denial whose answer carries no readable [lockout_until]
    locks the page without a countdown: the stored end time is the text
    NaN, no lockout warning is rendered, and no tick or submission ever
    reopens the guard.  Only a reload of the page does, at any time: it
    finds an end time that it cannot read and clears both keys. *)
Theorem denial_without_end_time_locks_until_reload
    (P : Platform) (now : Z) (data : LoginFormData) (chk : RateLimitCheck)
    (st : State) (inputs : list Input) (later : Z) :
  BlockedAttempt P data chk ->
  lockout_until chk = NaN ->
  guard st = OPEN ->
  Forall staysOnPage inputs ->
  let st1 := finalState (onSubmit P now data st) in
  guard st1 = LOCKED
  /\ getItem "loginLockoutEnd" st1 = Some (js "NaN")
  /\ lockoutWarning later st1 = None
  /\ run inputs st1 = st1
  /\ reopened (step st1 (PageLoad later)).
Proof.
  intros Hblocked Hnan Hopen%guard_OPEN Hall. cbv zeta.
  destruct (onSubmit_blocked P now data chk st Hblocked Hopen) as [-> _].
  rewrite Hnan.
  set (st1 := setIsLoading false _).
  assert (isLocked st1 = true) as Hlocked by done.
  assert (lockoutEndTime st1 = Some NaN) as Hend by done.
  split; [done|].
  split; [unfold getItem, st1; cbn; rewrite lookup_insert_ne by done;
          apply lookup_insert_eq|].
  split; [done|]. split.
  - induction Hall as [|i inputs Hi _ IH]; [done|].
    change (run (i :: inputs) st1) with (run inputs (step st1 i)).
    assert (step st1 i = st1) as ->; [|exact IH].
    destruct i as [t | t | Q t form]; [done| |].
    + cbn [step]. unfold countdownTick, countdownActive.
      by rewrite Hlocked, Hend.
    + by apply locked_step_submit.
  - cbn [step]. unfold checkExistingLockout.
    assert (getItem "loginLockoutEnd" (initial (localStorage st1))
            = Some (js "NaN")) as ->.
    { unfold getItem, st1. cbn. rewrite lookup_insert_ne by done.
      apply lookup_insert_eq. }
    change (nonEmpty (js "NaN")) with true.
    change (parseInt (js "NaN")) with NaN. cbn [Number.lt].
    rewrite getItem_removeItem_eq.
    repeat split.
    + rewrite getItem_removeItem_ne by done. apply getItem_removeItem_eq.
    + apply getItem_removeItem_eq.
Qed.

Lemma blockingWithoutEnd_BlockedAttempt :
  BlockedAttempt Outages.blockingWithoutEnd Scenario.form
    {| allowed := false; lockout_until := NaN;
       attempts_remaining := Some 0; message := None |}.
Proof. constructor; [by exists None | done]. Defined.

(** A denial without an end time at 1000: a day of ticks and a
    submission with the right password do not reopen the page; a reload
    does. *)
Lemma denial_without_end_time_example :
  let st1 := finalState (onSubmit Outages.blockingWithoutEnd 1000
                           Scenario.form (initial ∅)) in
  guard st1 = LOCKED
  /\ getItem "loginLockoutEnd" st1 = Some (js "NaN")
  /\ lockoutWarning 2000 st1 = None
  /\ run [Tick 2000; Submit (Scenario.accepting 5) 3000 Scenario.form;
          Tick 86400000] st1 = st1
  /\ reopened (step st1 (PageLoad 2000)).
Proof.
  cbv zeta.
  apply (denial_without_end_time_locks_until_reload
           Outages.blockingWithoutEnd 1000 Scenario.form _ (initial ∅)
           [Tick 2000; Submit (Scenario.accepting 5) 3000 Scenario.form;
            Tick 86400000] 2000
           blockingWithoutEnd_BlockedAttempt eq_refl eq_refl).
  repeat match goal with
         | |- Forall _ (_ :: _) => constructor
         | |- Forall _ [] => constructor
         end; exact I.
Defined.

End LockoutFacts.

(** * Numbers written to and read from the storage *)

Section DecimalFacts.

Import Validations Login GuardSpec LoginSpec View.
Local Open Scope Z_scope.

Lemma js_cons (c : ascii) (s : string) :
  js (String c s) = N_of_ascii c :: js s.
Proof. reflexivity. Qed.

(** One decimal digit read by [digitsPrefix]. *)
Lemma digitsPrefix_digit (k : Z) (c : ascii) (s : string) (acc : option Z) :
  digitValue (N_of_ascii c) = Some k ->
  (k <? 10) = true ->
  digitsPrefix 10 (js (String c s)) acc
  = digitsPrefix 10 (js s) (Some (10 * default 0 acc + k)).
Proof.
  intros Hc Hk. rewrite js_cons. cbn [digitsPrefix]. by rewrite Hc, Hk.
Qed.

Ltac read_digit :=
  erewrite digitsPrefix_digit;
    [ | vm_compute; reflexivity | reflexivity ];
    unfold from_option, Datatypes.id.

(** The digits of a decimal numeral, read from the left by
    [digitsPrefix] into a positive accumulator. *)
Lemma digitsPrefix_acc (d : Decimal.uint) (p : positive) :
  digitsPrefix 10 (js (NilEmpty.string_of_uint d)) (Some (Z.pos p))
  = Some (Z.pos (Pos.of_uint_acc d p)).
Proof.
  revert p.
  induction d; intros p; cbn [NilEmpty.string_of_uint Pos.of_uint_acc];
    [reflexivity|..]; read_digit;
    match goal with
    | |- digitsPrefix 10 _ (Some ?v) = Some (Z.pos (Pos.of_uint_acc _ ?q)) =>
        replace v with (Z.pos q) by lia
    end; apply IHd.
Qed.

Lemma digitsPrefix_zero (d : Decimal.uint) :
  digitsPrefix 10 (js (NilEmpty.string_of_uint d)) (Some 0)
  = Some (Z.of_N (Pos.of_uint d)).
Proof.
  induction d; cbn [NilEmpty.string_of_uint Pos.of_uint];
    [reflexivity|..]; read_digit; [exact IHd|..];
    cbn [Z.of_N]; apply (digitsPrefix_acc d).
Qed.

Lemma digitsPrefix_start (d : Decimal.uint) :
  d <> Decimal.Nil ->
  digitsPrefix 10 (js (NilEmpty.string_of_uint d)) None
  = Some (Z.of_N (Pos.of_uint d)).
Proof.
  intros Hd. rewrite <- digitsPrefix_zero.
  destruct d; [done|..]; cbn [NilEmpty.string_of_uint];
    do 2 read_digit; reflexivity.
Qed.

(** [parseInt] on a string that starts with a decimal digit which is
    not followed by a letter: no white space to skip, no sign, and no
    hexadecimal prefix. *)
Lemma parseInt_unsigned (c : N) (r : jsstring) :
  isDigit c = true ->
  (forall b r', r = b :: r' -> isDigit b = true) ->
  parseInt (c :: r)
  = match digitsPrefix 10 (c :: r) None with
    | Some v => Int (1 * v)
    | None => NaN
    end.
Proof.
  intros Hc Hr. unfold parseInt.
  assert (48 <= c <= 57)%N as Hrange.
  { unfold isDigit, inRange in Hc. apply andb_true_iff in Hc as [H1 H2].
    apply N.leb_le in H1, H2. lia. }
  assert (isTrimmable c = false) as Htrim
    by (apply ascii_printable_not_trimmable; lia).
  cbn [dropWhile]. rewrite Htrim.
  destruct (N.eqb_spec c 45) as [|_]; [lia|].
  destruct (N.eqb_spec c 43) as [|_]; [lia|].
  destruct r as [|b r']; [reflexivity|].
  specialize (Hr b r' eq_refl).
  assert (48 <= b <= 57)%N as Hb.
  { unfold isDigit, inRange in Hr. apply andb_true_iff in Hr as [H1 H2].
    apply N.leb_le in H1, H2. lia. }
  destruct (N.eqb_spec b 120) as [|_]; [lia|].
  destruct (N.eqb_spec b 88) as [|_]; [lia|].
  by rewrite andb_false_r.
Qed.

Lemma parseInt_negative (c : N) (r : jsstring) :
  isDigit c = true ->
  (forall b r', r = b :: r' -> isDigit b = true) ->
  parseInt (45%N :: c :: r)
  = match digitsPrefix 10 (c :: r) None with
    | Some v => Int (-1 * v)
    | None => NaN
    end.
Proof.
  intros Hc Hr. unfold parseInt.
  change (dropWhile isTrimmable (45%N :: c :: r)) with (45%N :: c :: r).
  cbn [N.eqb Pos.eqb].
  assert (48 <= c <= 57)%N as Hrange.
  { unfold isDigit, inRange in Hc. apply andb_true_iff in Hc as [H1 H2].
    apply N.leb_le in H1, H2. lia. }
  destruct r as [|b r']; [reflexivity|].
  specialize (Hr b r' eq_refl).
  assert (48 <= b <= 57)%N as Hb.
  { unfold isDigit, inRange in Hr. apply andb_true_iff in Hr as [H1 H2].
    apply N.leb_le in H1, H2. lia. }
  destruct (N.eqb_spec b 120) as [|_]; [lia|].
  destruct (N.eqb_spec b 88) as [|_]; [lia|].
  by rewrite andb_false_r.
Qed.

(** A decimal numeral is written with digits only. *)
Lemma string_of_uint_digits (d : Decimal.uint) :
  d <> Decimal.Nil ->
  exists c r, js (NilEmpty.string_of_uint d) = c :: r
              /\ isDigit c = true
              /\ forall b r', r = b :: r' -> isDigit b = true.
Proof.
  intros Hd. destruct d as [|d|d|d|d|d|d|d|d|d|d]; [done|..];
    cbn [NilEmpty.string_of_uint]; rewrite js_cons;
    (eexists _, _; split; [reflexivity|]; split; [reflexivity|]);
    intros b r' Heq; destruct d; cbn [NilEmpty.string_of_uint] in Heq;
    try discriminate Heq; rewrite js_cons in Heq;
    injection Heq as <- _; reflexivity.
Qed.

(** Reading back a number that was written as text gives the number. *)
Lemma parseInt_toString (z : Z) : parseInt (Number.toString (Int z)) = Int z.
Proof.
  destruct z as [|p|p]; [reflexivity|..]; unfold Number.toString;
    cbn [Z.to_int NilZero.string_of_int].
  - pose proof (DecimalPos.Unsigned.to_uint_nonnil p) as Hne.
    assert (NilZero.string_of_uint (Pos.to_uint p)
            = NilEmpty.string_of_uint (Pos.to_uint p)) as ->.
    { by destruct (Pos.to_uint p). }
    destruct (string_of_uint_digits _ Hne) as (c & r & Heq & Hc & Hr).
    rewrite Heq, parseInt_unsigned by done. rewrite <- Heq.
    rewrite digitsPrefix_start by done.
    rewrite DecimalPos.Unsigned.of_to. f_equal.
  - pose proof (DecimalPos.Unsigned.to_uint_nonnil p) as Hne.
    assert (NilZero.string_of_uint (Pos.to_uint p)
            = NilEmpty.string_of_uint (Pos.to_uint p)) as ->.
    { by destruct (Pos.to_uint p). }
    rewrite js_cons.
    destruct (string_of_uint_digits _ Hne) as (c & r & Heq & Hc & Hr).
    change (N_of_ascii "-") with 45%N.
    rewrite Heq, parseInt_negative by done. rewrite <- Heq.
    rewrite digitsPrefix_start by done.
    rewrite DecimalPos.Unsigned.of_to. f_equal.
Qed.

End DecimalFacts.

Section StorageFacts.

Import Validations Login GuardSpec LoginSpec View.
Local Open Scope Z_scope.

#[local] Arguments UseAuth.signIn : simpl never.

(** X21. Numbers survive the storage: for every safe integer (the
    range in which the numbers of the page are exact), the text that
    [toString] writes is read back by [parseInt] as the same number,
    negative numbers included.  This is what lets a lockout end time
    and an attempt counter written by one page be used by the next. *)
Theorem stored_numbers_are_read_back (z : Z) :
  - 2 ^ 53 < z < 2 ^ 53 ->
  parseInt (Number.toString (Int z)) = Int z.
Proof. intros _. apply parseInt_toString. Qed.

(** A time in October 2025, and a negative number. *)
Lemma stored_numbers_are_read_back_example :
  Number.toString (Int 1761148800000) = js "1761148800000"
  /\ parseInt (Number.toString (Int 1761148800000)) = Int 1761148800000
  /\ parseInt (Number.toString (Int (-42))) = Int (-42).
Proof.
  split; [reflexivity|]. split.
  - apply (stored_numbers_are_read_back 1761148800000). split; reflexivity.
  - apply (stored_numbers_are_read_back (-42)). split; reflexivity.
Defined.

(** X22. A lockout survives a reload of the page: after a denial whose
    answer ends the lockout at [t], a page that is loaded before [t]
    is LOCKED again with the same end time and a counter at the
    threshold, and leaves the storage as it found it. *)
Theorem lockout_survives_reload
    (P : Platform) (now : Z) (data : LoginFormData) (chk : RateLimitCheck)
    (st : State) (t later : Z) :
  BlockedAttempt P data chk ->
  lockout_until chk = Int t ->
  - 2 ^ 53 < t < 2 ^ 53 ->
  guard st = OPEN ->
  later < t ->
  let st1 := finalState (onSubmit P now data st) in
  let st2 := step st1 (PageLoad later) in
  guard st2 = LOCKED
  /\ lockoutEndTime st2 = Some (Int t)
  /\ loginAttempts st2 = Int MAX_LOGIN_ATTEMPTS
  /\ localStorage st2 = localStorage st1.
Proof.
  intros Hblocked Hend _ Hopen%guard_OPEN Hlater. cbv zeta.
  destruct (onSubmit_blocked P now data chk st Hblocked Hopen) as [-> _].
  rewrite Hend. set (st1 := setIsLoading false _).
  cbn [step]. unfold checkExistingLockout.
  assert (getItem "loginLockoutEnd" (initial (localStorage st1))
          = Some (Number.toString (Int t))) as ->.
  { unfold getItem, st1. cbn. rewrite lookup_insert_ne by done.
    apply lookup_insert_eq. }
  rewrite (nonEmpty_true _ (toString_nonempty _)), parseInt_toString.
  cbn [Number.lt]. destruct (Z.ltb_spec later t) as [_|]; [|lia].
  assert (getItem "loginAttempts"
            (setLockoutEndTime (Some (Int t))
               (setIsLocked true (initial (localStorage st1))))
          = Some (Number.toString (Int MAX_LOGIN_ATTEMPTS))) as ->.
  { unfold getItem, st1. cbn. apply lookup_insert_eq. }
  rewrite (nonEmpty_true _ (toString_nonempty _)), parseInt_toString.
  by repeat split.
Qed.

(** Denied at 1000 until 900000, reloaded at 2000: still locked until
    900000. *)
Lemma lockout_survives_reload_example :
  let st1 := finalState (onSubmit (Scenario.blocking 900000) 1000
                           Scenario.form (initial ∅)) in
  let st2 := step st1 (PageLoad 2000) in
  guard st2 = LOCKED
  /\ lockoutEndTime st2 = Some (Int 900000)
  /\ loginAttempts st2 = Int MAX_LOGIN_ATTEMPTS
  /\ localStorage st2 = localStorage st1.
Proof.
  cbv zeta.
  apply (lockout_survives_reload (Scenario.blocking 900000) 1000
           Scenario.form _ (initial ∅) 900000 2000
           (blocking_BlockedAttempt 900000) eq_refl).
  - split; reflexivity.
  - reflexivity.
  - lia.
Defined.

Lemma parseInt_empty : parseInt [] = NaN.
Proof. reflexivity. Qed.

(** X23. What a page load makes of the storage, for every stored
    [loginLockoutEnd] that [parseInt] reads exactly (as not a number or
    as a safe integer).  The page comes up LOCKED exactly when the key
    holds a text that [parseInt] reads as a time after now; it then
    takes that time as its lockout end time and leaves the storage
    alone.  Any other non-empty value of the key, be it expired or
    unreadable, is cleared together with the stored counter, and the
    page comes up OPEN with a counter of 0.  Without the key, or with
    an empty value, the storage is left alone.  The page never comes up
    loading. *)
Theorem page_load_locks_only_on_a_future_end_time (st0 : State) (now : Z) :
  (forall s, localStorage st0 !! "loginLockoutEnd" = Some s -> readExactly s) ->
  let storage := localStorage st0 in
  let st := step st0 (PageLoad now) in
  (guard st = LOCKED
   <-> exists s t, storage !! "loginLockoutEnd" = Some s
                   /\ parseInt s = Int t /\ now < t)
  /\ (forall s, storage !! "loginLockoutEnd" = Some s -> guard st = LOCKED ->
        lockoutEndTime st = Some (parseInt s) /\ localStorage st = storage)
  /\ (guard st = OPEN -> lockoutEndTime st = None)
  /\ (forall s, storage !! "loginLockoutEnd" = Some s -> s <> [] ->
        guard st = OPEN ->
        loginAttempts st = Int 0
        /\ localStorage st
           = delete "loginAttempts" (delete "loginLockoutEnd" storage))
  /\ (storage !! "loginLockoutEnd" = None
      \/ storage !! "loginLockoutEnd" = Some [] ->
      localStorage st = storage)
  /\ isLoading st = false.
Proof.
  intros _. cbv zeta. cbn [step]. unfold checkExistingLockout.
  change (getItem "loginLockoutEnd" (initial (localStorage st0)))
    with (localStorage st0 !! "loginLockoutEnd").
  assert (Hattempts : forall st1,
            let st := match getItem "loginAttempts" st1 with
                      | Some attempts =>
                          if nonEmpty attempts
                          then setLoginAttempts (parseInt attempts) st1
                          else st1
                      | None => st1
                      end in
            isLocked st = isLocked st1
            /\ lockoutEndTime st = lockoutEndTime st1
            /\ localStorage st = localStorage st1
            /\ isLoading st = isLoading st1
            /\ (getItem "loginAttempts" st1 = None ->
                loginAttempts st = loginAttempts st1)).
  { intros st1. cbv zeta. destruct (getItem "loginAttempts" st1) as [a|];
      [destruct (nonEmpty a)|]; by repeat split. }
  destruct (localStorage st0 !! "loginLockoutEnd") as [s|] eqn:Hkey.
  2:{ destruct (Hattempts (initial (localStorage st0)))
        as (Hl & He & Hs & Hload & _).
      unfold guard. rewrite Hl, He, Hs, Hload. cbn.
      split; [split; [done | by intros (? & ? & ? & _)]|].
      split; [by intros ? ?|]. split; [done|].
      split; [by intros ? ?|]. by split. }
  destruct s as [|c s].
  { cbn [nonEmpty].
    destruct (Hattempts (initial (localStorage st0)))
      as (Hl & He & Hs & Hload & _).
    unfold guard. rewrite Hl, He, Hs, Hload. cbn.
    split.
    { split; [done|]. intros (? & ? & [= <-] & Hparse & _).
      by rewrite parseInt_empty in Hparse. }
    split; [by intros ? _ ?|]. split; [done|].
    split; [by intros ? [= <-] ?|]. by split. }
  cbn [nonEmpty].
  destruct (Number.lt (Int now) (parseInt (c :: s))) eqn:Hlt.
  - destruct (Hattempts (setLockoutEndTime (Some (parseInt (c :: s)))
                           (setIsLocked true (initial (localStorage st0)))))
      as (Hl & He & Hs & Hload & _).
    unfold guard. rewrite Hl, He, Hs, Hload. cbn.
    split.
    { split; [|done]. intros _. exists (c :: s).
      destruct (parseInt (c :: s)) as [|t]; [done|]. exists t.
      cbn in Hlt. apply Z.ltb_lt in Hlt. done. }
    split; [by intros ? [= <-] _|]. split; [done|].
    split; [by intros ? _ _ ?|]. split; [|done].
    by intros [?|?].
  - destruct (Hattempts (removeItem "loginAttempts"
                           (removeItem "loginLockoutEnd"
                              (initial (localStorage st0)))))
      as (Hl & He & Hs & Hload & Hcount).
    unfold guard. rewrite Hl, He, Hs, Hload, Hcount
      by apply getItem_removeItem_eq.
    cbn. split.
    { split; [done|]. intros (s' & t & [= <-] & Hparse & Hnow).
      rewrite Hparse in Hlt. cbn in Hlt. apply Z.ltb_ge in Hlt. lia. }
    split; [by intros ? _ ?|]. split; [done|].
    split; [by intros ? _ _ _|]. split; [|done].
    by intros [?|?].
Qed.

(** A browser that holds a lockout until 900000 and a counter of 5: a
    page loaded at 2000 comes up LOCKED until 900000 and leaves the
    storage alone; a page loaded at 900000 comes up OPEN. *)
Lemma page_load_example :
  let storage : gmap string jsstring :=
    <["loginAttempts" := js "5"]> (<["loginLockoutEnd" := js "900000"]> ∅) in
  readExactly (js "900000")
  /\ (let st := step (initial storage) (PageLoad 2000) in
      guard st = LOCKED
      /\ lockoutEndTime st = Some (parseInt (js "900000"))
      /\ localStorage st = storage)
  /\ guard (step (initial storage) (PageLoad 900000)) = OPEN.
Proof.
  cbv zeta.
  assert (Hexact : readExactly (js "900000")) by (split; reflexivity).
  assert (Hstored : forall s,
            localStorage
              (initial (<["loginAttempts" := js "5"]>
                          (<["loginLockoutEnd" := js "900000"]> ∅)))
              !! "loginLockoutEnd" = Some s ->
            readExactly s).
  { intros s Hs. cbn [localStorage initial] in Hs.
    rewrite lookup_insert_ne in Hs by done.
    rewrite lookup_insert_eq in Hs. by injection Hs as <-. }
  split; [exact Hexact|].
  destruct (page_load_locks_only_on_a_future_end_time
              (initial (<["loginAttempts" := js "5"]>
                          (<["loginLockoutEnd" := js "900000"]> ∅)))
              2000 Hstored)
    as (Hlocked & Hend & _).
  assert (Hguard : guard (step (initial (<["loginAttempts" := js "5"]>
                                          (<["loginLockoutEnd" := js "900000"]> ∅)))
                            (PageLoad 2000)) = LOCKED).
  { apply Hlocked. exists (js "900000"), 900000.
    split; [|split; [reflexivity | lia]].
    cbn [localStorage initial]. rewrite lookup_insert_ne by done.
    apply lookup_insert_eq. }
  split; [|vm_compute; reflexivity].
  split; [exact Hguard|].
  apply (Hend (js "900000")); [|exact Hguard].
  cbn [localStorage initial]. rewrite lookup_insert_ne by done.
  apply lookup_insert_eq.
Defined.

Lemma ceilMinutes_spec (x : Z) :
  exists m, ceilMinutes (Int x) = Int m
            /\ (m - 1) * 60000 < x <= m * 60000.
Proof.
  exists (- (- x / 60000)). split; [done|].
  pose proof (Z.div_mod (- x) 60000 ltac:(lia)) as Hdm.
  pose proof (Z.mod_pos_bound (- x) 60000 ltac:(lia)) as Hb. lia.
Qed.

(** X24. While a lockout of at most fifteen minutes is running, the
    page tells the remaining time in whole minutes, rounded up: the
    toast of a refused submission and the lockout warning show the same
    number [m], the least one with [t - now <= m] minutes, and it is
    between 1 and 15. *)
Theorem remaining_minutes_are_between_1_and_15
    (P : Platform) (now : Z) (data : LoginFormData) (st : State) (t : Z) :
  guard st = LOCKED ->
  lockoutEndTime st = Some (Int t) ->
  0 <= now ->
  now < t <= now + LOCKOUT_DURATION ->
  exists m,
    1 <= m <= 15
    /\ (m - 1) * 60000 < t - now <= m * 60000
    /\ trace (onSubmit P now data st)
       = [Toast "Account temporarily locked"
            (js "Too many failed attempts. Please try again in "
             ++ Number.toString (Int m) ++ js " minute(s).") true]
    /\ lockoutWarning now st = Some (Int m).
Proof.
  intros Hguard Hend Hnow Ht.
  assert (isLocked st = true) as Hlocked.
  { unfold guard in Hguard. by destruct (isLocked st). }
  destruct (ceilMinutes_spec (t - now)) as (m & Hm & Hbounds).
  exists m. unfold LOCKOUT_DURATION in Ht.
  split; [lia|]. split; [done|]. split.
  - rewrite onSubmit_locked by done. rewrite Hend. cbn [default].
    unfold from_option, Datatypes.id. cbn [Number.sub trace snd].
    unfold trace. cbn [snd]. by rewrite Hm.
  - unfold lockoutWarning. rewrite Hend, Hlocked. cbn [truthy andb].
    destruct (Z.eqb_spec t 0) as [|_]; [lia|]. cbn [negb Number.sub].
    by rewrite Hm.
Qed.

(** Locked until 900000 and submitted at 1000: fifteen minutes. *)
Lemma remaining_minutes_example :
  let st := setLockoutEndTime (Some (Int 900000))
              (setIsLocked true (initial ∅)) in
  exists m,
    1 <= m <= 15
    /\ (m - 1) * 60000 < 900000 - 1000 <= m * 60000
    /\ trace (onSubmit Scenario.wrongPassword 1000 Scenario.form st)
       = [Toast "Account temporarily locked"
            (js "Too many failed attempts. Please try again in "
             ++ Number.toString (Int m) ++ js " minute(s).") true]
    /\ lockoutWarning 1000 st = Some (Int m).
Proof.
  cbv zeta.
  apply (remaining_minutes_are_between_1_and_15
           Scenario.wrongPassword 1000 Scenario.form _ 900000);
    [reflexivity | reflexivity | lia | unfold LOCKOUT_DURATION; lia].
Defined.

(** X25. What the login page shows in the states it can reach, under
    servers that count within the threshold.  The warning about
    remaining attempts shows a number from 0 to 4, and only on an OPEN
    guard; the fields are disabled exactly when a lockout end time is
    held; and the warning about remaining attempts and the lockout
    warning are never shown together. *)
Theorem login_page_warnings_stay_in_range
    (inputs : list Input) (later : Z) :
  Forall wellBehaved inputs ->
  let st := run inputs (initial ∅) in
  (forall k, attemptsWarning st = Some k -> 0 <= k <= 4 /\ guard st = OPEN)
  /\ (fieldsDisabled st = true <-> is_Some (lockoutEndTime st))
  /\ (is_Some (lockoutWarning later st) -> attemptsWarning st = None).
Proof.
  intros Hwell. cbv zeta.
  pose proof (pageInvariant_run inputs (initial ∅) Hwell pageInvariant_initial)
    as ((n & Hn & Hrange) & Hend & _).
  set (st := run inputs (initial ∅)) in *.
  unfold attemptsWarning, lockoutWarning, fieldsDisabled, guard.
  rewrite Hn. unfold MAX_LOGIN_ATTEMPTS in *.
  split; [|split; [exact Hend|]].
  - intros k. destruct (Z.ltb_spec 0 n), (isLocked st); cbn; try done.
    intros [= <-]. split; [lia|done].
  - destruct (lockoutEndTime st) as [t|]; [|by intros []].
    destruct (isLocked st); cbn; [|by intros []].
    by rewrite andb_false_r.
Qed.

(** After five failed attempts the page is OPEN and warns that 0
    attempts remain. *)
Lemma login_page_warnings_example :
  let st := run Scenario.fiveFailures (initial ∅) in
  attemptsWarning st = Some 0
  /\ (0 <= 0 <= 4 /\ guard st = OPEN).
Proof.
  cbv zeta.
  assert (Hshown : attemptsWarning (run Scenario.fiveFailures (initial ∅))
                   = Some 0) by (vm_compute; reflexivity).
  split; [exact Hshown|].
  refine (proj1 (login_page_warnings_stay_in_range
                   Scenario.fiveFailures 0 _) 0 Hshown).
  unfold Scenario.fiveFailures, Scenario.fourFailures. cbn [app].
  repeat match goal with
         | |- Forall _ (_ :: _) => constructor
         | |- Forall _ [] => constructor
         end;
    cbn [wellBehaved];
    lazymatch goal with
    | |- True => exact I
    | |- countsWithinThreshold (Scenario.rejecting _) =>
        apply rejecting_countsWithinThreshold; unfold MAX_LOGIN_ATTEMPTS; lia
    end.
Defined.

End StorageFacts.
